(** * scifi-3-D-room: the solar-system scenes and the room scene

    A shallow embedding of the three scripts of the repository
    (the planet-group solar system and the detailed solar system of
    [src/unnamed/part_000], and the room of [src/script.js]) and the
    properties of their per-frame update loops.

    Numbers.  A JavaScript number is modelled as an exact rational ([Q]):
    the arithmetic of the scripts is addition, multiplication and division
    of decimal literals, which [Q] carries without loss.  Rounding to
    binary64, NaN and the infinities are outside the model; a value that is
    [Infinity] in the source (the default [maxDistance]) is an [option].
    Integer-valued script variables (array indices, colours) are [Z].

    Objects.  Every scene-graph node, texture and callback has an identity:
    nodes and textures live in finite maps keyed by their identity, script
    variables hold identities, and an assignment through a reference is an
    [alter] of the map at that identity. *)

From Stdlib Require Import QArith Qround Qminmax ZArith List Lia Lqa.
From stdpp Require Import base option list gmap strings.

Open Scope Q_scope.

(** [Math.PI]: the binary64 constant 3.141592653589793, exactly. *)
Definition Math_PI : Q := 884279719003555 # 281474976710656.

(** The per-frame accumulation [x += w], [k] times. *)
Definition accumulate (k : nat) (w x : Q) : Q := Nat.iter k (fun a => a + w) x.

(** The spec's congruence of two angles modulo a full turn. *)
Definition cong_2pi (a b : Q) : Prop :=
  exists n : Z, a - b == inject_Z n * (2 * Math_PI).

(** ** The three.js runtime the scripts run on

    Only what the scripts touch: transform nodes, textures and the texture
    loader, the camera projection, the renderer size, the controller
    settings, and the browser's frame-callback and timer queues. *)
Module Three.

Record Vector3 := mkVector3 { v_x : Q; v_y : Q; v_z : Q }.
Record Euler := mkEuler { e_x : Q; e_y : Q; e_z : Q }.

Inductive Geometry :=
| NoGeometry
| SphereGeometry (radius : Q) (widthSegments heightSegments : Z)
| RingGeometry (innerRadius outerRadius : Q) (thetaSegments : Z)
| CirclePath (radius : Q) (segments : Z).

(** An [Object3D] (Group, Mesh, Sprite, LineLoop, light).  A new object
    sits at the origin with zero rotation and no parent. *)
Record Object3D := mkObject3D {
  name : string;
  position : Vector3;
  rotation : Euler;
  geometry : Geometry;
  material_map : option nat;
  parent : option nat;
  children : list nat
}.

Definition new_Object3D (g : Geometry) (map : option nat) : Object3D :=
  mkObject3D "" (mkVector3 0 0 0) (mkEuler 0 0 0) g map None [].

Definition set_name (s : string) (o : Object3D) : Object3D :=
  mkObject3D s (position o) (rotation o) (geometry o) (material_map o)
             (parent o) (children o).
Definition set_position (f : Vector3 -> Vector3) (o : Object3D) : Object3D :=
  mkObject3D (name o) (f (position o)) (rotation o) (geometry o)
             (material_map o) (parent o) (children o).
Definition set_rotation (f : Euler -> Euler) (o : Object3D) : Object3D :=
  mkObject3D (name o) (position o) (f (rotation o)) (geometry o)
             (material_map o) (parent o) (children o).
Definition set_parent (p : option nat) (o : Object3D) : Object3D :=
  mkObject3D (name o) (position o) (rotation o) (geometry o)
             (material_map o) p (children o).
Definition add_child (c : nat) (o : Object3D) : Object3D :=
  mkObject3D (name o) (position o) (rotation o) (geometry o)
             (material_map o) (parent o) (children o ++ [c]).

(** [o.position.x = v], [o.rotation.x = v], [o.rotation.y = v],
    [o.rotation.y += w], [o.rotation.z = v]. *)
Definition position_x_set (v : Q) : Object3D -> Object3D :=
  set_position (fun p => mkVector3 v (v_y p) (v_z p)).
Definition position_set (x y z : Q) : Object3D -> Object3D :=
  set_position (fun _ => mkVector3 x y z).
Definition rotation_x_set (v : Q) : Object3D -> Object3D :=
  set_rotation (fun r => mkEuler v (e_y r) (e_z r)).
Definition rotation_y_set (v : Q) : Object3D -> Object3D :=
  set_rotation (fun r => mkEuler (e_x r) v (e_z r)).
Definition rotation_z_set (v : Q) : Object3D -> Object3D :=
  set_rotation (fun r => mkEuler (e_x r) (e_y r) v).
Definition rotation_y_add (w : Q) : Object3D -> Object3D :=
  set_rotation (fun r => mkEuler (e_x r) (e_y r + w) (e_z r)).

(** The scene graph: nodes by identity, and the next fresh identity.
    Identity 0 is the [Scene] itself. *)
Record Graph := mkGraph { objects : gmap nat Object3D; next_object : nat }.

Definition new_Scene : Graph :=
  mkGraph {[ 0%nat := new_Object3D NoGeometry None ]} 1.
Definition scene : nat := 0%nat.

Definition new_object (o : Object3D) (g : Graph) : nat * Graph :=
  (next_object g, mkGraph (<[next_object g := o]> (objects g)) (S (next_object g))).

Definition update (id : nat) (f : Object3D -> Object3D) (g : Graph) : Graph :=
  mkGraph (alter f id (objects g)) (next_object g).

(** [parent.add(child)] *)
Definition add (p c : nat) (g : Graph) : Graph :=
  update p (add_child c) (update c (set_parent (Some p)) g).

(** [scene.getObjectByName(s)]: the node of least identity with that name
    (the scripts give each name to one node). *)
Definition getObjectByName (s : string) (g : Graph) : option nat :=
  fst <$> head (filter (fun io => bool_decide (name (snd io) = s))
                       (map_to_list (objects g))).

(** A sequence of assignments through references, and what it does to the
    node of one identity. *)
Definition apply_writes (ws : list (nat * (Object3D -> Object3D))) (g : Graph) : Graph :=
  fold_left (fun g w => update (fst w) (snd w) g) ws g.

Definition effect (ws : list (nat * (Object3D -> Object3D))) (id : nat)
    (o : Object3D) : Object3D :=
  fold_left (fun o w => if decide (fst w = id) then snd w o else o) ws o.

(** All of a node but its rotation, and the assignments that leave it as
    it is. *)
Definition rest (o : Object3D) :=
  (name o, position o, geometry o, material_map o, parent o, children o).

Definition rotation_only (f : Object3D -> Object3D) : Prop :=
  forall o, rest (f o) = rest o.

(** Textures.  A [Texture] is created without image data; the image is
    attached when (and if) the load completes. *)
Inductive Image :=
| Bitmap (url : string)
| Canvas (width height : Z) (fillStyle : Z).

Record Texture := mkTexture { image : option Image; needsUpdate : bool }.

(** The [onError] closures the scripts hand to the loader, by what they
    capture. *)
Inductive ErrorCallback :=
| NoCallback
| FallbackCanvas (fallbackColor : Z).

Record ImageLoad := mkImageLoad {
  load_url : string;
  load_texture : nat;
  load_onError : ErrorCallback
}.

Record Loader := mkLoader {
  textures : gmap nat Texture;
  next_texture : nat;
  loads : list ImageLoad
}.

Definition new_TextureLoader : Loader := mkLoader ∅ 0 [].

Definition new_texture (t : Texture) (l : Loader) : nat * Loader :=
  (next_texture l,
   mkLoader (<[next_texture l := t]> (textures l)) (S (next_texture l)) (loads l)).

(** [new THREE.CanvasTexture(canvas)] *)
Definition new_CanvasTexture (width height fillStyle : Z) (l : Loader) : nat * Loader :=
  new_texture (mkTexture (Some (Canvas width height fillStyle)) true) l.

(** [textureLoader.load(url, onLoad, onProgress, onError)] of three.js:
    [const texture = new Texture(); loader.load(url, image => { texture.image
    = image; texture.needsUpdate = true; ... }, onProgress, onError);
    return texture;].  The texture is returned at once, the image load is
    left pending. *)
Definition TextureLoader_load (url : string) (onError : ErrorCallback)
    (l : Loader) : nat * Loader :=
  let (t, l1) := new_texture (mkTexture None false) l in
  (t, mkLoader (textures l1) (next_texture l1) (loads l1 ++ [mkImageLoad url t onError])).

(** The camera, and the aspect ratio its projection matrix was last built
    for ([updateProjectionMatrix] rebuilds it from the current fields). *)
Record Camera := mkCamera {
  fov : Q; aspect : Q; near : Q; far : Q;
  camera_position : Vector3;
  projection_aspect : Q
}.

Definition new_PerspectiveCamera (fov aspect near far : Q) : Camera :=
  mkCamera fov aspect near far (mkVector3 0 0 0) aspect.
Definition aspect_set (a : Q) (c : Camera) : Camera :=
  mkCamera (fov c) a (near c) (far c) (camera_position c) (projection_aspect c).
Definition updateProjectionMatrix (c : Camera) : Camera :=
  mkCamera (fov c) (aspect c) (near c) (far c) (camera_position c) (aspect c).
Definition camera_position_set (x y z : Q) (c : Camera) : Camera :=
  mkCamera (fov c) (aspect c) (near c) (far c) (mkVector3 x y z) (projection_aspect c).

Record Renderer := mkRenderer { width : Q; height : Q; pixelRatio : Q }.

Definition new_WebGLRenderer : Renderer := mkRenderer 300 150 1.
Definition setSize (w h : Q) (r : Renderer) : Renderer := mkRenderer w h (pixelRatio r).
Definition setPixelRatio (d : Q) (r : Renderer) : Renderer := mkRenderer (width r) (height r) d.

(** The settings of an [OrbitControls], with the defaults of three.js. *)
Record Controls := mkControls {
  enableDamping : bool; dampingFactor : Q; screenSpacePanning : bool;
  minDistance : Q; maxDistance : option Q;
  rotateSpeed : Q; zoomSpeed : Q; panSpeed : Q
}.

Definition new_OrbitControls : Controls :=
  mkControls false 0.05 true 0 None 1 1 1.

(** What a produced frame was drawn with. *)
Record Frame := mkFrame { frame_aspect : Q; frame_width : Q; frame_height : Q }.

Inductive CanvasId := MatrixCanvas | SideCanvas.

(** The operations of a tick, as they are logged. *)
Inductive Op :=
| ControlsUpdate
| AngleAccumulation
| PoseUpdate
| CanvasRepaint (c : CanvasId)
| Render.

(** Callbacks handed to [requestAnimationFrame] and [setTimeout]. *)
Inductive FrameCallback := cb_animate | cb_animateMatrixRain.
Inductive TimerCallback := cb_codeScroll.

(** The page: everything the browser and three.js hold for a script. *)
Record Page := mkPage {
  graph : Graph;
  loader : Loader;
  camera : Camera;
  renderer : Renderer;
  controls : Controls;
  trace : list Op;
  frames : list Frame;
  rafQueue : list FrameCallback;
  timers : list (TimerCallback * Z)
}.

Definition set_graph (f : Graph -> Graph) (p : Page) : Page :=
  mkPage (f (graph p)) (loader p) (camera p) (renderer p) (controls p)
         (trace p) (frames p) (rafQueue p) (timers p).
Definition set_loader (f : Loader -> Loader) (p : Page) : Page :=
  mkPage (graph p) (f (loader p)) (camera p) (renderer p) (controls p)
         (trace p) (frames p) (rafQueue p) (timers p).
Definition set_camera (f : Camera -> Camera) (p : Page) : Page :=
  mkPage (graph p) (loader p) (f (camera p)) (renderer p) (controls p)
         (trace p) (frames p) (rafQueue p) (timers p).
Definition set_renderer (f : Renderer -> Renderer) (p : Page) : Page :=
  mkPage (graph p) (loader p) (camera p) (f (renderer p)) (controls p)
         (trace p) (frames p) (rafQueue p) (timers p).
Definition set_controls (f : Controls -> Controls) (p : Page) : Page :=
  mkPage (graph p) (loader p) (camera p) (renderer p) (f (controls p))
         (trace p) (frames p) (rafQueue p) (timers p).
Definition log (o : Op) (p : Page) : Page :=
  mkPage (graph p) (loader p) (camera p) (renderer p) (controls p)
         (trace p ++ [o]) (frames p) (rafQueue p) (timers p).
Definition set_rafQueue (f : list FrameCallback -> list FrameCallback) (p : Page) : Page :=
  mkPage (graph p) (loader p) (camera p) (renderer p) (controls p)
         (trace p) (frames p) (f (rafQueue p)) (timers p).
Definition set_timers (f : list (TimerCallback * Z) -> list (TimerCallback * Z))
    (p : Page) : Page :=
  mkPage (graph p) (loader p) (camera p) (renderer p) (controls p)
         (trace p) (frames p) (rafQueue p) (f (timers p)).

(** The browser window when the script starts. *)
Record Window := mkWindow { innerWidth : Q; innerHeight : Q; devicePixelRatio : Q }.

(** [new THREE.Scene()], [new THREE.PerspectiveCamera(75, window.innerWidth /
    window.innerHeight, 0.1, far)], [new THREE.WebGLRenderer(...)],
    [renderer.setSize(...)], [renderer.setPixelRatio(...)], [new
    OrbitControls(...)]: the page every script starts from. *)
Definition new_Page (w : Window) (far : Q) : Page :=
  mkPage new_Scene new_TextureLoader
         (new_PerspectiveCamera 75 (innerWidth w / innerHeight w) 0.1 far)
         (setPixelRatio (devicePixelRatio w)
            (setSize (innerWidth w) (innerHeight w) new_WebGLRenderer))
         new_OrbitControls [] [] [] [].

(** [requestAnimationFrame(cb)], [setTimeout(cb, ms)] *)
Definition requestAnimationFrame (cb : FrameCallback) : Page -> Page :=
  set_rafQueue (fun q => q ++ [cb]).
Definition setTimeout (cb : TimerCallback) (ms : Z) : Page -> Page :=
  set_timers (fun q => q ++ [(cb, ms)]).

(** [controls.update()]: the controller's easing step.  Its effect on the
    camera is the library's; the scripts only call it. *)
Definition controls_update : Page -> Page := log ControlsUpdate.

(** [renderer.render(scene, camera)] (and [composer.render()], which ends
    in it): a frame is produced from the projection matrix and the render
    surface as they are now. *)
Definition render (p : Page) : Page :=
  let p := log Render p in
  mkPage (graph p) (loader p) (camera p) (renderer p) (controls p) (trace p)
         (frames p ++ [mkFrame (projection_aspect (camera p))
                               (width (renderer p)) (height (renderer p))])
         (rafQueue p) (timers p).

(** The body of the [onError] closure of the scripts' [loadTexture]: a 1x1
    canvas filled with the fallback colour, wrapped in a [CanvasTexture],
    which the closure returns. *)
Definition run_onError (cb : ErrorCallback) (l : Loader) : option nat * Loader :=
  match cb with
  | NoCallback => (None, l)
  | FallbackCanvas fallbackColor =>
      let (t, l1) := new_CanvasTexture 1 1 fallbackColor l in (Some t, l1)
  end.

Definition pending (t : nat) (l : Loader) : list ImageLoad :=
  filter (fun d => load_texture d = t) (loads l).
Definition settle (t : nat) (l : Loader) : Loader :=
  mkLoader (textures l) (next_texture l)
           (filter (fun d => load_texture d <> t) (loads l)).

(** The image of a pending load arrives: the loader attaches it. *)
Definition image_loaded (t : nat) (l : Loader) : Loader :=
  match pending t l with
  | d :: _ =>
      let l1 := settle t l in
      mkLoader (alter (fun _ => mkTexture (Some (Bitmap (load_url d))) true) t (textures l1))
               (next_texture l1) (loads l1)
  | [] => l
  end.

(** The load fails: the loader's error handler runs [onError(event)] as a
    statement; what the callback returns goes nowhere. *)
Definition image_error (t : nat) (l : Loader) : Loader :=
  match pending t l with
  | d :: _ => snd (run_onError (load_onError d) (settle t l))
  | [] => l
  end.

(** A texture can be drawn once it has image data. *)
Definition renderable (t : Texture) : bool := bool_decide (is_Some (image t)).

(** The state monad of the scripts' top-level code over the page. *)
Definition M (A : Type) : Type := Page -> A * Page.

#[export] Instance M_ret : MRet M := fun A a p => (a, p).
#[export] Instance M_bind : MBind M :=
  fun A B k m p => let (a, p1) := m p in k a p1.

Definition in_graph {A} (f : Graph -> A * Graph) : M A :=
  fun p => let (a, g) := f (graph p) in (a, set_graph (fun _ => g) p).
Definition in_loader {A} (f : Loader -> A * Loader) : M A :=
  fun p => let (a, l) := f (loader p) in (a, set_loader (fun _ => l) p).
Definition modify (f : Page -> Page) : M unit := fun p => (tt, f p).
Definition on_graph (f : Graph -> Graph) : M unit := modify (set_graph f).

Definition new_Group : M nat := in_graph (new_object (new_Object3D NoGeometry None)).
Definition new_Mesh (g : Geometry) (map : option nat) : M nat :=
  in_graph (new_object (new_Object3D g map)).

End Three.

(** ** The planet-group solar system ([src/unnamed/part_000], first script) *)
Module Solar.
Import Three.

Record PlanetParam := mkPlanetParam {
  name : string;
  size : Q;
  distance : Q;
  color : Z;
  orbitSpeed : Q;
  rotationSpeed : Q;
  texture : nat
}.

Record PlanetGroup := mkPlanetGroup {
  mesh : nat;
  orbitGroup : nat;
  params : PlanetParam;
  angle : Q
}.

Record State := mkState {
  page : Page;
  sun : nat;
  planetGroups : list PlanetGroup
}.

Definition set_page (f : Page -> Page) (s : State) : State :=
  mkState (f (page s)) (sun s) (planetGroups s).

(** [function loadTexture(url, fallbackColor = 0x888888)] *)
Definition loadTexture (url : string) (fallbackColor : Z) : M nat :=
  in_loader (TextureLoader_load url (FallbackCanvas fallbackColor)).

Definition solarsystemscope (file : string) : string :=
  "https://www.solarsystemscope.com/textures/download/" +:+ file.

Definition planetParams : M (list PlanetParam) :=
  mercury ← loadTexture (solarsystemscope "8k_mercury.jpg") 0x888888;
  venus ← loadTexture (solarsystemscope "8k_venus_surface.jpg") 0x888888;
  earth ← loadTexture (solarsystemscope "8k_earth_daymap.jpg") 0x888888;
  mars ← loadTexture (solarsystemscope "8k_mars.jpg") 0x888888;
  jupiter ← loadTexture (solarsystemscope "8k_jupiter.jpg") 0x888888;
  saturn ← loadTexture (solarsystemscope "8k_saturn.jpg") 0x888888;
  uranus ← loadTexture (solarsystemscope "8k_uranus.jpg") 0x888888;
  neptune ← loadTexture (solarsystemscope "8k_neptune.jpg") 0x888888;
  pluto ← loadTexture (solarsystemscope "8k_pluto.jpg") 0x888888;
  mret [ mkPlanetParam "Mercury" 2 40 0xaaaaaa 0.008 0.018 mercury;
         mkPlanetParam "Venus" 3 65 0xffcccc 0.007 0.008 venus;
         mkPlanetParam "Earth" 3.5 100 0x3399ff 0.006 0.016 earth;
         mkPlanetParam "Mars" 3 125 0xff5500 0.005 0.014 mars;
         mkPlanetParam "Jupiter" 10 170 0xe3b679 0.0025 0.03 jupiter;
         mkPlanetParam "Saturn" 8 210 0xf6e289 0.0018 0.025 saturn;
         mkPlanetParam "Uranus" 6 255 0x00eaff 0.0009 0.019 uranus;
         mkPlanetParam "Neptune" 6 295 0x1a06aa 0.0007 0.017 neptune;
         mkPlanetParam "Pluto" 1 335 0xc8d1ff 0.0005 0.012 pluto ].

(** The body of [planetParams.forEach((p, idx) => ...)]; its result is the
    record pushed on [planetGroups]. *)
Definition create_planet (p : PlanetParam) (idx : nat) : M PlanetGroup :=
  orbitGroup ← new_Group;
  on_graph (add scene orbitGroup);;
  orbitPath ← new_Mesh (CirclePath (distance p) 64) None;
  on_graph (add scene orbitPath);;
  planet ← new_Mesh (SphereGeometry (size p) 64 64) (Some (texture p));
  on_graph (update planet (position_x_set (distance p)));;
  (if bool_decide (name p = "Saturn") then
     ringMap ← loadTexture (solarsystemscope "8k_saturn_ring_alpha.png") 0x888888;
     ring ← new_Mesh (RingGeometry (size p + 2) (size p + 7) 64) (Some ringMap);
     on_graph (update ring (set_position (fun v => mkVector3 (v_x v) 0 (v_z v))));;
     on_graph (update ring (rotation_x_set (Math_PI / 2)));;
     on_graph (add planet ring)
   else mret tt);;
  on_graph (add orbitGroup planet);;
  mret (mkPlanetGroup planet orbitGroup p
          (inject_Z (Z.of_nat idx) * Math_PI / 4)).

Fixpoint forEach_create (ps : list PlanetParam) (idx : nat) : M (list PlanetGroup) :=
  match ps with
  | [] => mret []
  | p :: ps =>
      pg ← create_planet p idx;
      pgs ← forEach_create ps (S idx);
      mret (pg :: pgs)
  end.

(** [pg.angle += pg.params.orbitSpeed] *)
Definition advance (pg : PlanetGroup) : PlanetGroup :=
  mkPlanetGroup (mesh pg) (orbitGroup pg) (params pg)
                (angle pg + orbitSpeed (params pg)).

(** [pg.orbitGroup.rotation.y = pg.angle] *)
Definition orbit_statement (pg : PlanetGroup) : Graph -> Graph :=
  update (orbitGroup pg) (rotation_y_set (angle pg)).

(** [pg.mesh.rotation.y += pg.params.rotationSpeed * 0.03] *)
Definition spin_statement (pg : PlanetGroup) : Graph -> Graph :=
  update (mesh pg) (rotation_y_add (rotationSpeed (params pg) * 0.03)).

(** The body of [planetGroups.forEach(pg => ...)] in [animate]. *)
Definition animate_planet (pg : PlanetGroup) (g : Graph) : PlanetGroup * Graph :=
  let pg := advance pg in
  let g := orbit_statement pg g in
  let g := spin_statement pg g in
  (pg, g).

Fixpoint forEach_animate (pgs : list PlanetGroup) (g : Graph)
    : list PlanetGroup * Graph :=
  match pgs with
  | [] => ([], g)
  | pg :: pgs =>
      let (pg1, g1) := animate_planet pg g in
      let (pgs1, g2) := forEach_animate pgs g1 in
      (pg1 :: pgs1, g2)
  end.

(** [function animate()]; the frame timestamp the browser passes is not a
    parameter of the function. *)
Definition animate (s : State) : State :=
  let p := requestAnimationFrame cb_animate (page s) in
  let p := controls_update p in
  let p := log AngleAccumulation p in
  let p := set_graph (update (sun s) (rotation_y_add 0.0004)) p in
  let (pgs, g) := forEach_animate (planetGroups s) (graph p) in
  let p := set_graph (fun _ => g) p in
  let p := render p in
  mkState p (sun s) pgs.

(** The [resize] listener. *)
Definition onResize (innerWidth innerHeight : Q) (s : State) : State :=
  let p := set_camera (aspect_set (innerWidth / innerHeight)) (page s) in
  let p := set_camera updateProjectionMatrix p in
  let p := set_renderer (setSize innerWidth innerHeight) p in
  set_page (fun _ => p) s.

(** The top-level code of the script up to, and without, the final call
    [animate();]. *)
Definition script : M (nat * list PlanetGroup) :=
  modify (set_controls (fun c =>
    mkControls true 0.05 false 15 (Some 2000)
               (rotateSpeed c) (zoomSpeed c) (panSpeed c)));;
  modify (set_camera (camera_position_set 0 200 400));;
  modify controls_update;;
  ambientLight ← new_Group;
  on_graph (add scene ambientLight);;
  sunLight ← new_Group;
  on_graph (update sunLight (position_set 0 0 0));;
  on_graph (add scene sunLight);;
  params ← planetParams;
  sunMap ← loadTexture (solarsystemscope "8k_sun.jpg") 0x888888;
  sun ← new_Mesh (SphereGeometry 18 64 64) (Some sunMap);
  on_graph (add scene sun);;
  sunGlowLight ← new_Group;
  on_graph (add sun sunGlowLight);;
  planetGroups ← forEach_create params 0;
  stars ← new_Group;
  on_graph (add scene stars);;
  mret (sun, planetGroups).

Definition created (w : Window) : State :=
  let '(sun, planetGroups, p) :=
    script (new_Page w 5000) in
  mkState p sun planetGroups.

(** The state once the script has run: the objects are created and
    [animate()] has been called once. *)
Definition init (w : Window) : State := animate (created w).

Inductive Event :=
| Frame (timestamp : Q)
| Resize (innerWidth innerHeight : Q)
| ImageLoaded (texture : nat)
| ImageError (texture : nat).

Definition run_callback (cb : FrameCallback) (s : State) : State :=
  match cb with
  | cb_animate => animate s
  | cb_animateMatrixRain => s
  end.

(** A display refresh runs the frame callbacks that were requested before
    it, in the order of their requests. *)
Definition refresh (s : State) : State :=
  let q := rafQueue (page s) in
  fold_left (fun s cb => run_callback cb s) q (set_page (set_rafQueue (fun _ => [])) s).

Definition step (e : Event) (s : State) : State :=
  match e with
  | Frame _ => refresh s
  | Resize w h => onResize w h s
  | ImageLoaded t => set_page (set_loader (image_loaded t)) s
  | ImageError t => set_page (set_loader (image_error t)) s
  end.

Definition run (es : list Event) (s : State) : State :=
  fold_left (fun s e => step e s) es s.

Definition is_frame (e : Event) : bool :=
  match e with Frame _ => true | _ => false end.

(** The number of calls of [animate] once the script has run and the
    events [es] have been handled. *)
Definition ticks (es : list Event) : nat := S (length (filter is_frame es)).

(** What one event adds to the log of operations. *)
Definition performed (e : Event) (s : State) : list Op :=
  drop (length (trace (page s))) (trace (page (step e s))).

(** The assignments of one call of [animate], in the order of execution:
    to the sun, then to each planet's orbit group and mesh. *)
Definition writes (pg : PlanetGroup) : list (nat * (Object3D -> Object3D)) :=
  [ (orbitGroup pg, rotation_y_set (angle (advance pg)));
    (mesh pg, rotation_y_add (rotationSpeed (params pg) * 0.03)) ].

Definition frame_writes (s : State) : list (nat * (Object3D -> Object3D)) :=
  (sun s, rotation_y_add 0.0004) :: flat_map writes (planetGroups s).

(** [k] calls of [animate] on one planet group. *)
Definition advance_by (k : nat) (pg : PlanetGroup) : PlanetGroup :=
  Nat.iter k advance pg.

(** The identities [animate] writes through. *)
Definition ids_of (pg : PlanetGroup) : list nat := [orbitGroup pg; mesh pg].
Definition ids (s : State) : list nat := sun s :: flat_map ids_of (planetGroups s).

End Solar.

(** ** The detailed solar system ([src/unnamed/part_000], second script) *)
Module Detailed.
Import Three.

(** [data.moon = { mesh: moon, orbitGroup: moonOrbit }] *)
Record Moon := mkMoon { moon_mesh : nat; moon_orbitGroup : nat }.

(** An entry of [planetsData].  The last three fields are absent from the
    literal and are attached while the planet is created. *)
Record PlanetData := mkPlanetData {
  name : string;
  size : Q;
  distance : Q;
  orbitalPeriod : Q;
  rotationPeriod : Q;
  axialTilt : Q;
  texture : nat;
  cloudsTexture : option nat;
  normalMap : option nat;
  specularMap : option nat;
  nightTexture : option nat;
  ringTexture : option nat;
  ringInnerRadius : option Q;
  ringOuterRadius : option Q;
  color : Z;
  cloudsMesh : option nat;
  nightLightsMesh : option nat;
  moon : option Moon
}.

Definition attach (clouds night : option nat) (m : option Moon) (d : PlanetData)
    : PlanetData :=
  mkPlanetData (name d) (size d) (distance d) (orbitalPeriod d) (rotationPeriod d)
    (axialTilt d) (texture d) (cloudsTexture d) (normalMap d) (specularMap d)
    (nightTexture d) (ringTexture d) (ringInnerRadius d) (ringOuterRadius d)
    (color d) clouds night m.

(** An entry of [planets].  [data] is the entry of [planetsData] as it is
    when it is pushed; nothing writes to it afterwards. *)
Record Planet := mkPlanet {
  mesh : nat;
  orbitGroup : nat;
  data : PlanetData
}.

Record State := mkState {
  page : Page;
  sun : nat;
  planets : list Planet
}.

Definition set_page (f : Page -> Page) (s : State) : State :=
  mkState (f (page s)) (sun s) (planets s).

(** [const loadTexture = (url, fallbackColor = 0x888888) => ...] *)
Definition loadTexture (url : string) (fallbackColor : Z) : M nat :=
  in_loader (TextureLoader_load url (FallbackCanvas fallbackColor)).

Definition solarsystemscope (file : string) : string :=
  "https://www.solarsystemscope.com/textures/download/" +:+ file.

Record Textures := mkTextures {
  sunTexture : nat;
  moonTexture : nat;
  moonNormalMap : nat
}.

(** The texture constants and [planetsData], in source order. *)
Definition planetsData : M (Textures * list PlanetData) :=
  sunTexture ← loadTexture (solarsystemscope "8k_sun.jpg") 0x888888;
  earthDayTexture ← loadTexture (solarsystemscope "8k_earth_daymap.jpg") 0x888888;
  earthCloudsTexture ← loadTexture (solarsystemscope "8k_earth_clouds.jpg") 0x888888;
  earthNormalMap ← loadTexture (solarsystemscope "8k_earth_normal_map.jpg") 0x888888;
  earthSpecularMap ← loadTexture (solarsystemscope "8k_earth_specular_map.jpg") 0x888888;
  earthNightTexture ← loadTexture (solarsystemscope "8k_earth_nightmap.jpg") 0x888888;
  moonTexture ← loadTexture (solarsystemscope "8k_moon.jpg") 0x888888;
  moonNormalMap ← loadTexture (solarsystemscope "8k_moon_normal_map.jpg") 0x888888;
  mercuryTexture ← loadTexture (solarsystemscope "8k_mercury.jpg") 0x888888;
  venusDayTexture ← loadTexture (solarsystemscope "8k_venus_surface.jpg") 0x888888;
  venusCloudsTexture ← loadTexture (solarsystemscope "8k_venus_atmosphere.jpg") 0x888888;
  marsTexture ← loadTexture (solarsystemscope "8k_mars.jpg") 0x888888;
  jupiterTexture ← loadTexture (solarsystemscope "8k_jupiter.jpg") 0x888888;
  saturnTexture ← loadTexture (solarsystemscope "8k_saturn.jpg") 0x888888;
  saturnRingTexture ← loadTexture (solarsystemscope "8k_saturn_ring_alpha.png") 0x888888;
  uranusTexture ← loadTexture (solarsystemscope "8k_uranus.jpg") 0x888888;
  neptuneTexture ← loadTexture (solarsystemscope "8k_neptune.jpg") 0x888888;
  mret (mkTextures sunTexture moonTexture moonNormalMap,
    [ mkPlanetData "Mercury" 3 50 0.24 58.6 0.03 mercuryTexture
        None None None None None None None 0xAAAAAA None None None;
      mkPlanetData "Venus" 4.8 80 0.62 (-243) 177.3 venusDayTexture
        (Some venusCloudsTexture) None None None None None None 0xFFAAAA
        None None None;
      mkPlanetData "Earth" 5 120 1 1 23.5 earthDayTexture
        (Some earthCloudsTexture) (Some earthNormalMap) (Some earthSpecularMap)
        (Some earthNightTexture) None None None 0x0000FF None None None;
      mkPlanetData "Mars" 3.5 180 1.88 1.03 25.2 marsTexture
        None None None None None None None 0xFF0000 None None None;
      mkPlanetData "Jupiter" 25 300 11.86 0.41 3.1 jupiterTexture
        None None None None None None None 0xFFA500 None None None;
      mkPlanetData "Saturn" 20 450 29.46 0.44 26.7 saturnTexture
        None None None None (Some saturnRingTexture) (Some 25) (Some 40)
        0xFFD700 None None None;
      mkPlanetData "Uranus" 18 600 84.01 (-0.72) 97.8 uranusTexture
        None None None None None None None 0xADD8E6 None None None;
      mkPlanetData "Neptune" 17 750 164.79 0.67 28.3 neptuneTexture
        None None None None None None None 0x00008B None None None ]).

(** [if (data.cloudsTexture) { ... data.cloudsMesh = clouds; }] and
    [if (data.nightTexture) { ... data.nightLightsMesh = nightLights; }]:
    a shell around the planet, or nothing. *)
Definition create_shell (planet : nat) (map : option nat) (radius : Q)
    : M (option nat) :=
  match map with
  | Some t =>
      shell ← new_Mesh (SphereGeometry radius 64 64) (Some t);
      on_graph (add planet shell);;
      mret (Some shell)
  | None => mret None
  end.

(** [if (data.name === "Saturn" && data.ringTexture) { ... }] *)
Definition create_rings (planet : nat) (d : PlanetData) : M unit :=
  match ringTexture d, ringInnerRadius d, ringOuterRadius d with
  | Some t, Some inner, Some outer =>
      if bool_decide (name d = "Saturn") then
        rings ← new_Mesh (RingGeometry inner outer 64) (Some t);
        on_graph (update rings (rotation_x_set (Math_PI / 2)));;
        on_graph (add planet rings)
      else mret tt
  | _, _, _ => mret tt
  end.

(** [if (data.name === "Earth") { ... data.moon = { mesh: moon, orbitGroup:
    moonOrbit }; }] *)
Definition create_moon (planet : nat) (d : PlanetData) (tx : Textures)
    : M (option Moon) :=
  if bool_decide (name d = "Earth") then
    moonOrbit ← new_Group;
    on_graph (add planet moonOrbit);;
    moon ← new_Mesh (SphereGeometry 1.5 32 32) (Some (moonTexture tx));
    on_graph (update moon (position_x_set 15));;
    on_graph (add moonOrbit moon);;
    mret (Some (mkMoon moon moonOrbit))
  else mret None.

(** The body of the first [planetsData.forEach(data => ...)]. *)
Definition create_planet (tx : Textures) (d : PlanetData) : M Planet :=
  planetOrbit ← new_Group;
  on_graph (add scene planetOrbit);;
  planet ← new_Mesh (SphereGeometry (size d) 64 64) (Some (texture d));
  on_graph (update planet (position_x_set (distance d)));;
  on_graph (add planetOrbit planet);;
  clouds ← create_shell planet (cloudsTexture d) (size d * 1.02);
  nightLights ← create_shell planet (nightTexture d) (size d * 1.01);
  create_rings planet d;;
  moon ← create_moon planet d tx;
  mret (mkPlanet planet planetOrbit (attach clouds nightLights moon d)).

Fixpoint forEach_create (tx : Textures) (ds : list PlanetData) : M (list Planet) :=
  match ds with
  | [] => mret []
  | d :: ds =>
      p ← create_planet tx d;
      ps ← forEach_create tx ds;
      mret (p :: ps)
  end.

(** The body of the second [planetsData.forEach(data => ...)]: the orbit
    paths; the moon's path hangs from
    [planets.find(p => p.data.name === "Earth").mesh]. *)
Definition create_path (ps : list Planet) (d : PlanetData) : M unit :=
  orbitPath ← new_Mesh (CirclePath (distance d) 128) None;
  on_graph (add scene orbitPath);;
  if bool_decide (name d = "Earth") then
    moonPath ← new_Mesh (CirclePath 15 128) None;
    match head (filter (fun p => name (data p) = "Earth") ps) with
    | Some earth => on_graph (add (mesh earth) moonPath)
    | None => mret tt
    end
  else mret tt.

Fixpoint forEach_path (ps : list Planet) (ds : list PlanetData) : M unit :=
  match ds with
  | [] => mret tt
  | d :: ds => create_path ps d;; forEach_path ps ds
  end.

(** [orbitGroup.rotation.y += (0.005 / data.orbitalPeriod)] *)
Definition orbit_statement (p : Planet) : Graph -> Graph :=
  update (orbitGroup p) (rotation_y_add (0.005 / orbitalPeriod (data p))).

(** [mesh.rotation.x = data.axialTilt * Math.PI / 180], and the same for
    [data.cloudsMesh] and [data.nightLightsMesh] when they are there. *)
Definition on_shell (shell : option nat) (f : Object3D -> Object3D) (g : Graph) : Graph :=
  match shell with
  | Some id => update id f g
  | None => g
  end.

Definition tilt (d : PlanetData) : Q := axialTilt d * Math_PI / 180.

Definition tilt_statement (p : Planet) (g : Graph) : Graph :=
  let g := update (mesh p) (rotation_x_set (tilt (data p))) g in
  let g := on_shell (cloudsMesh (data p)) (rotation_x_set (tilt (data p))) g in
  on_shell (nightLightsMesh (data p)) (rotation_x_set (tilt (data p))) g.

(** [mesh.rotation.y += (0.05 / data.rotationPeriod)] and the clouds'
    [... * 0.9]. *)
Definition spin_statement (p : Planet) (g : Graph) : Graph :=
  let g := update (mesh p) (rotation_y_add (0.05 / rotationPeriod (data p))) g in
  on_shell (cloudsMesh (data p))
           (rotation_y_add (0.05 / rotationPeriod (data p) * 0.9)) g.

(** [if (data.name === "Earth" && data.moon) { data.moon.orbitGroup.rotation.y
    += 0.02; data.moon.mesh.rotation.y += 0.005; }] *)
Definition moon_statement (p : Planet) (g : Graph) : Graph :=
  if bool_decide (name (data p) = "Earth") then
    match moon (data p) with
    | Some m =>
        let g := update (moon_orbitGroup m) (rotation_y_add 0.02) g in
        update (moon_mesh m) (rotation_y_add 0.005) g
    | None => g
    end
  else g.

(** The body of [planets.forEach(p => ...)] in [animate]. *)
Definition animate_planet (p : Planet) (g : Graph) : Graph :=
  let g := tilt_statement p g in
  let g := orbit_statement p g in
  let g := spin_statement p g in
  moon_statement p g.

Definition forEach_animate (ps : list Planet) (g : Graph) : Graph :=
  fold_left (fun g p => animate_planet p g) ps g.

(** [const animate = () => { ... }] *)
Definition animate (s : State) : State :=
  let p := requestAnimationFrame cb_animate (page s) in
  let p := controls_update p in
  let p := log AngleAccumulation p in
  let p := set_graph (update (sun s) (rotation_y_add 0.0005)) p in
  let p := set_graph (forEach_animate (planets s)) p in
  let p := render p in
  mkState p (sun s) (planets s).

(** The [resize] listener. *)
Definition onResize (innerWidth innerHeight : Q) (s : State) : State :=
  let p := set_camera (aspect_set (innerWidth / innerHeight)) (page s) in
  let p := set_camera updateProjectionMatrix p in
  let p := set_renderer (setSize innerWidth innerHeight) p in
  set_page (fun _ => p) s.

(** The top-level code of the script. *)
Definition script : M (nat * list Planet) :=
  modify (set_controls (fun c =>
    mkControls true 0.05 false 15 (Some 2000)
               (rotateSpeed c) (zoomSpeed c) (panSpeed c)));;
  modify (set_camera (camera_position_set 0 200 400));;
  modify controls_update;;
  ambientLight ← new_Group;
  on_graph (add scene ambientLight);;
  sunLight ← new_Group;
  on_graph (update sunLight (position_set 0 0 0));;
  on_graph (add scene sunLight);;
  '(tx, ds) ← planetsData;
  sun ← new_Mesh (SphereGeometry 20 64 64) (Some (sunTexture tx));
  on_graph (add scene sun);;
  sunGlowLight ← new_Group;
  on_graph (add sun sunGlowLight);;
  coronaMap ← loadTexture "https://placehold.co/128x128/FFD700/000000?text=Corona" 0x888888;
  corona ← new_Mesh NoGeometry (Some coronaMap);
  on_graph (add sun corona);;
  planets ← forEach_create tx ds;
  forEach_path planets ds;;
  stars ← new_Group;
  on_graph (add scene stars);;
  mret (sun, planets).

Definition created (w : Window) : State :=
  let '(sun, planets, p) := script (new_Page w 5000) in
  mkState p sun planets.

(** The state once the page has loaded: [window.onload] has called
    [animate()]. *)
Definition init (w : Window) : State := animate (created w).

Inductive Event :=
| Frame (timestamp : Q)
| Resize (innerWidth innerHeight : Q)
| ImageLoaded (texture : nat)
| ImageError (texture : nat).

Definition run_callback (cb : FrameCallback) (s : State) : State :=
  match cb with
  | cb_animate => animate s
  | cb_animateMatrixRain => s
  end.

Definition refresh (s : State) : State :=
  let q := rafQueue (page s) in
  fold_left (fun s cb => run_callback cb s) q (set_page (set_rafQueue (fun _ => [])) s).

Definition step (e : Event) (s : State) : State :=
  match e with
  | Frame _ => refresh s
  | Resize w h => onResize w h s
  | ImageLoaded t => set_page (set_loader (image_loaded t)) s
  | ImageError t => set_page (set_loader (image_error t)) s
  end.

Definition run (es : list Event) (s : State) : State :=
  fold_left (fun s e => step e s) es s.

Definition is_frame (e : Event) : bool :=
  match e with Frame _ => true | _ => false end.

Definition ticks (es : list Event) : nat := S (length (filter is_frame es)).

(** What one event adds to the log of operations. *)
Definition performed (e : Event) (s : State) : list Op :=
  drop (length (trace (page s))) (trace (page (step e s))).

(** The assignments of one call of [animate], in the order of execution. *)
Definition shell_write (shell : option nat) (f : Object3D -> Object3D)
    : list (nat * (Object3D -> Object3D)) :=
  match shell with
  | Some id => [(id, f)]
  | None => []
  end.

Definition writes (p : Planet) : list (nat * (Object3D -> Object3D)) :=
  let d := data p in
  [(mesh p, rotation_x_set (tilt d))]
  ++ shell_write (cloudsMesh d) (rotation_x_set (tilt d))
  ++ shell_write (nightLightsMesh d) (rotation_x_set (tilt d))
  ++ [(orbitGroup p, rotation_y_add (0.005 / orbitalPeriod d))]
  ++ [(mesh p, rotation_y_add (0.05 / rotationPeriod d))]
  ++ shell_write (cloudsMesh d) (rotation_y_add (0.05 / rotationPeriod d * 0.9))
  ++ (if bool_decide (name d = "Earth") then
        match moon d with
        | Some m => [ (moon_orbitGroup m, rotation_y_add 0.02);
                      (moon_mesh m, rotation_y_add 0.005) ]
        | None => []
        end
      else []).

Definition frame_writes (s : State) : list (nat * (Object3D -> Object3D)) :=
  (sun s, rotation_y_add 0.0005) :: flat_map writes (planets s).

End Detailed.

(** ** The room ([src/script.js]) *)
Module Room.
Import Three.

(** What the script takes from its host: [Math.sin], [Math.cos], and the
    values [Math.random()] returns, by the number of the call. *)
Record Env := mkEnv {
  Math_sin : Q -> Q;
  Math_cos : Q -> Q;
  Math_random : nat -> Q
}.

Record Drop := mkDrop { y : Q; speed : Q }.

Record State := mkState {
  page : Page;
  mDrops : list Drop;
  randoms : nat;
  codeScroll : Z;
  sideText : list (option string);
  matrixTexture : nat;
  codeTexture : nat;
  composer : Q * Q
}.

Definition set_page (f : Page -> Page) (s : State) : State :=
  mkState (f (page s)) (mDrops s) (randoms s) (codeScroll s) (sideText s)
          (matrixTexture s) (codeTexture s) (composer s).

Definition matrixCanvas_width : Q := 512.
Definition matrixCanvas_height : Q := 256.
Definition matrixChars : string := "ABCDEFGHIJKLMNOPQRSTUVWXYZ0123456789@#$%^&*()".

(** [Math.floor(matrixCanvas.width / 14)] *)
Definition mColumns : nat := Z.to_nat (Qfloor (matrixCanvas_width / 14)).

(** [mDrops[i] = { y: Math.floor(Math.random() * matrixCanvas.height),
    speed: Math.random() * 3 + 1.5 }] for [i] below [mColumns], drawing from
    call number [n] on. *)
Fixpoint create_drops (E : Env) (columns n : nat) : list Drop * nat :=
  match columns with
  | O => ([], n)
  | S columns =>
      let d := mkDrop (inject_Z (Qfloor (Math_random E n * matrixCanvas_height)))
                      (Math_random E (S n) * 3 + 1.5) in
      let (ds, n1) := create_drops E columns (S (S n)) in
      (d :: ds, n1)
  end.

(** [a > b] on numbers. *)
Definition gt (a b : Q) : bool := negb (Qle_bool a b).

(** One round of the loop of [animateMatrixRain]: a character is drawn
    ([Math.random()] picks it), the drop falls, and past the lower edge it
    restarts when a second [Math.random()] exceeds 0.96. *)
Definition rain (E : Env) (d : Drop) (n : nat) : Drop * nat :=
  let n := S n in
  let y1 := y d + speed d in
  if gt y1 (matrixCanvas_height + 80) then
    if gt (Math_random E n) 0.96 then (mkDrop 0 (speed d), S n)
    else (mkDrop y1 (speed d), S n)
  else (mkDrop y1 (speed d), n).

Fixpoint rain_all (E : Env) (ds : list Drop) (n : nat) : list Drop * nat :=
  match ds with
  | [] => ([], n)
  | d :: ds =>
      let (d1, n1) := rain E d n in
      let (ds1, n2) := rain_all E ds n1 in
      (d1 :: ds1, n2)
  end.

Definition needsUpdate_set (t : nat) : Page -> Page :=
  set_loader (fun l => mkLoader (alter (fun x => mkTexture (image x) true) t (textures l))
                                (next_texture l) (loads l)).

(** [function animateMatrixRain()] *)
Definition animateMatrixRain (E : Env) (s : State) : State :=
  let p := log (CanvasRepaint MatrixCanvas) (page s) in
  let (ds, n) := rain_all E (mDrops s) (randoms s) in
  let p := needsUpdate_set (matrixTexture s) p in
  let p := requestAnimationFrame cb_animateMatrixRain p in
  mkState p ds n (codeScroll s) (sideText s) (matrixTexture s) (codeTexture s)
          (composer s).

Definition codeLines : list string :=
  [ "def fib(n):"; "    a, b = 0, 1"; "    while a < n:"; "        print(a)";
    "        a, b = b, a+b"; ""; "fib(10)"; ""; "[OK] Script finished." ].

Definition codeLines_length : Z := Z.of_nat (length codeLines).

(** [codeLines[idx]]: the element, or [undefined] outside the array. *)
Definition codeLines_at (idx : Z) : option string :=
  if (idx <? 0)%Z then None else codeLines !! Z.to_nat idx.

(** [(codeScroll + i) % codeLines.length] *)
Definition line_index (codeScroll i : Z) : Z :=
  Z.rem (codeScroll + i) codeLines_length.

(** [function animateCodeOutput()]: the nine lines are drawn, and the next
    scroll step is left to a timer. *)
Definition animateCodeOutput (s : State) : State :=
  let p := log (CanvasRepaint SideCanvas) (page s) in
  let text := map (fun i => codeLines_at (line_index (codeScroll s) i))
                  [0; 1; 2; 3; 4; 5; 6; 7; 8]%Z in
  let p := setTimeout cb_codeScroll 800 p in
  mkState p (mDrops s) (randoms s) (codeScroll s) text (matrixTexture s)
          (codeTexture s) (composer s).

(** The callback of that timer. *)
Definition codeScroll_callback (s : State) : State :=
  let s := mkState (page s) (mDrops s) (randoms s)
                   (Z.rem (codeScroll s + 1) codeLines_length)
                   (sideText s) (matrixTexture s) (codeTexture s) (composer s) in
  let s := set_page (needsUpdate_set (codeTexture s)) s in
  animateCodeOutput s.

Definition on_named (n : string) (f : Object3D -> Object3D) (g : Graph) : Graph :=
  match getObjectByName n g with
  | Some id => update id f g
  | None => g
  end.

(** [function animate()], with [now] the value of [Date.now()]. *)
Definition animate (E : Env) (now : Q) (s : State) : State :=
  let p := requestAnimationFrame cb_animate (page s) in
  let p := controls_update p in
  let time := now * 0.002 in
  let p := log PoseUpdate p in
  let p := set_graph (on_named "person_head"
             (rotation_y_set (Math_sin E (time * 0.7) * 0.15))) p in
  let p := set_graph (on_named "person_head"
             (rotation_x_set (Math_sin E (time * 1.1) * 0.08))) p in
  let p :=
    match getObjectByName "left_arm" (graph p), getObjectByName "right_arm" (graph p) with
    | Some leftArm, Some rightArm =>
        let p := set_graph (update leftArm
                   (rotation_x_set (Math_sin E (time * 10) * 0.05 + 0.8))) p in
        set_graph (update rightArm
                   (rotation_x_set (Math_cos E (time * 10) * 0.05 + 0.8))) p
    | _, _ => p
    end in
  let p := render p in
  set_page (fun _ => p) s.

(** The [resize] listener. *)
Definition onResize (innerWidth innerHeight : Q) (s : State) : State :=
  let p := set_camera (aspect_set (innerWidth / innerHeight)) (page s) in
  let p := set_camera updateProjectionMatrix p in
  let p := set_renderer (setSize innerWidth innerHeight) p in
  mkState p (mDrops s) (randoms s) (codeScroll s) (sideText s)
          (matrixTexture s) (codeTexture s) (innerWidth, innerHeight).

(** [for (let side of [-1, 1]) { ... const arm = new THREE.Group(); arm.name
    = side === -1 ? "left_arm" : "right_arm"; ... person.add(arm); }] *)
Definition create_arm (person : nat) (side : Q) : M unit :=
  arm ← new_Group;
  on_graph (update arm (set_name (if Qeq_bool side (-1) then "left_arm" else "right_arm")));;
  on_graph (update arm (position_set (side * 0.4) 0.8 0.2));;
  on_graph (update arm (rotation_z_set (side * -0.5)));;
  on_graph (update arm (rotation_x_set 0.8));;
  on_graph (add person arm).

(** The nodes of the scene that [animate] looks up by name, under the groups
    that hold them; the unnamed meshes of the room are left out. *)
Definition create_person : M unit :=
  workstation ← new_Group;
  officeChair ← new_Group;
  person ← new_Group;
  head ← new_Mesh (SphereGeometry 0.25 32 16) None;
  on_graph (update head (set_position (fun v => mkVector3 (v_x v) 1.3 (v_z v))));;
  on_graph (update head (set_name "person_head"));;
  on_graph (add person head);;
  create_arm person (-1);;
  create_arm person 1;;
  on_graph (update person (position_set 0 0.2 0.1));;
  on_graph (add officeChair person);;
  on_graph (update officeChair (position_set (-0.7) (-5.4) (-5.6)));;
  on_graph (update officeChair (rotation_y_set Math_PI));;
  on_graph (add workstation officeChair);;
  on_graph (add scene workstation).

(** The top-level code of the script up to its two monitors, without the
    calls that start the loops. *)
Definition script (E : Env) (w : Window) : State :=
  let p := new_Page w 1000 in
  let p := set_controls (fun c =>
             mkControls true 0.05 (screenSpacePanning c) (minDistance c)
                        (maxDistance c) 2 2 2) p in
  let (ds, n) := create_drops E mColumns 0 in
  let (matrixTexture, p) := in_loader (new_CanvasTexture 512 256 0) p in
  let (codeTexture, p) := in_loader (new_CanvasTexture 256 190 0) p in
  let (_, p) := create_person p in
  mkState p ds n 0 [] matrixTexture codeTexture (innerWidth w, innerHeight w).

(** The state once the script has run: [animateMatrixRain()],
    [animateCodeOutput()], then [camera.position.set(0, -1, 10);
    controls.update();] and [animate()], in this order.  [now] is the clock
    at that moment. *)
Definition init (E : Env) (w : Window) (now : Q) : State :=
  let s := animateMatrixRain E (script E w) in
  let s := animateCodeOutput s in
  let s := set_page (set_camera (camera_position_set 0 (-1) 10)) s in
  let s := set_page controls_update s in
  animate E now s.

Inductive Event :=
| Frame (now : Q)
| Timeout
| Resize (innerWidth innerHeight : Q).

Definition run_callback (E : Env) (now : Q) (cb : FrameCallback) (s : State) : State :=
  match cb with
  | cb_animate => animate E now s
  | cb_animateMatrixRain => animateMatrixRain E s
  end.

(** A display refresh runs the frame callbacks requested before it, in the
    order of their requests. *)
Definition refresh (E : Env) (now : Q) (s : State) : State :=
  let q := rafQueue (page s) in
  fold_left (fun s cb => run_callback E now cb s) q
            (set_page (set_rafQueue (fun _ => [])) s).

(** The oldest pending timer fires. *)
Definition timeout (s : State) : State :=
  match timers (page s) with
  | (cb_codeScroll, _) :: rest =>
      codeScroll_callback (set_page (set_timers (fun _ => rest)) s)
  | [] => s
  end.

Definition step (E : Env) (e : Event) (s : State) : State :=
  match e with
  | Frame now => refresh E now s
  | Timeout => timeout s
  | Resize w h => onResize w h s
  end.

Definition run (E : Env) (es : list Event) (s : State) : State :=
  fold_left (fun s e => step E e s) es s.

(** What one event adds to the log of operations. *)
Definition performed (E : Env) (e : Event) (s : State) : list Op :=
  drop (length (trace (page s))) (trace (page (step E e s))).

(** What holds of every state the page goes through: both frame callbacks
    are requested, in the order of their first calls; one scroll timer is
    pending; the scroll position is an index of [codeLines]; every text
    drawn on the side canvas is a line. *)
Definition invariant (s : State) : Prop :=
  rafQueue (page s) = [cb_animateMatrixRain; cb_animate]
  /\ timers (page s) = [(cb_codeScroll, 800%Z)]
  /\ (0 <= codeScroll s < codeLines_length)%Z
  /\ Forall is_Some (sideText s).

End Room.

(** ** The camera controller

    Modelled from the spec: the camera controller.  Its code is the
    OrbitControls add-on of three.js, which is not under [src/]: the scripts
    construct it, set its fields and call [update()].  The spec (4.3)
    describes it: it ``maintains azimuth/polar angles and a distance from a
    fixed target, applies exponential damping toward the latest
    user-commanded values every frame, and clamps distance to a configured
    [min, max] range''. *)
Module CameraController.
Import Three.

Record State := mkState {
  azimuth : Q; polar : Q; distance : Q;
  commanded_azimuth : Q; commanded_polar : Q; commanded_distance : Q
}.

(** Pointer input: a drag commands new angles, a zoom a new distance. *)
Inductive Input :=
| Drag (azimuth polar : Q)
| Zoom (distance : Q).

Definition input (i : Input) (s : State) : State :=
  match i with
  | Drag a p => mkState (azimuth s) (polar s) (distance s) a p (commanded_distance s)
  | Zoom d => mkState (azimuth s) (polar s) (distance s)
                      (commanded_azimuth s) (commanded_polar s) d
  end.

(** One step of the damping toward a commanded value. *)
Definition ease (c : Controls) (current commanded : Q) : Q :=
  if enableDamping c then current + (commanded - current) * dampingFactor c
  else commanded.

(** The clamp to [[minDistance, maxDistance]]; no [maxDistance] is
    [Infinity]. *)
Definition clamp (c : Controls) (d : Q) : Q :=
  Qmax (minDistance c)
       (match maxDistance c with
        | Some hi => Qmin hi d
        | None => d
        end).

(** The per-frame step, [controls.update()]. *)
Definition update (c : Controls) (s : State) : State :=
  mkState (ease c (azimuth s) (commanded_azimuth s))
          (ease c (polar s) (commanded_polar s))
          (clamp c (ease c (distance s) (commanded_distance s)))
          (commanded_azimuth s) (commanded_polar s) (commanded_distance s).

Inductive Event :=
| Pointer (i : Input)
| Update.

Definition step (c : Controls) (e : Event) (s : State) : State :=
  match e with
  | Pointer i => input i s
  | Update => update c s
  end.

Definition run (c : Controls) (es : list Event) (s : State) : State :=
  fold_left (fun s e => step c e s) es s.

(** The distance is within the configured range. *)
Definition in_range (c : Controls) (d : Q) : Prop :=
  minDistance c <= d /\
  match maxDistance c with
  | Some hi => d <= hi
  | None => True
  end.

(** The configured range is not empty. *)
Definition bounds_ordered (c : Controls) : Prop :=
  match maxDistance c with
  | Some hi => minDistance c <= hi
  | None => True
  end.

End CameraController.

(** ** The ordering of the operations of a tick *)

#[export] Instance CanvasId_eq_dec : EqDecision Three.CanvasId.
Proof. solve_decision. Defined.
#[export] Instance Op_eq_dec : EqDecision Three.Op.
Proof. solve_decision. Defined.

Definition is_repaint (o : Three.Op) : bool :=
  match o with Three.CanvasRepaint _ => true | _ => false end.
Definition is_op (a o : Three.Op) : bool := bool_decide (a = o).

(** [in_order ps ops]: operations satisfying [ps], one after the other,
    occur in [ops] in that order. *)
Fixpoint in_order (ps : list (Three.Op -> bool)) (ops : list Three.Op) : bool :=
  match ps, ops with
  | [], _ => true
  | _ :: _, [] => false
  | p :: ps1, o :: ops1 => if p o then in_order ps1 ops1 else in_order ps ops1
  end.

(** The order the spec gives: camera easing, angle accumulation, canvas
    repaint, final render. *)
Definition spec_order : list (Three.Op -> bool) :=
  [ is_op Three.ControlsUpdate; is_op Three.AngleAccumulation; is_repaint;
    is_op Three.Render ].

(** A window and a host, for evaluating the scripts. *)
Definition window0 : Three.Window := Three.mkWindow 1920 1080 1.
Definition host0 : Room.Env := Room.mkEnv (fun _ => 0) (fun _ => 1) (fun _ => 0.5).

(** ** The viewport and the event counts *)

(** The size of the viewport after the events: that of the latest resize,
    or of the window the script started in. *)
Definition solar_viewport (w : Three.Window) (es : list Solar.Event) : Q * Q :=
  fold_left (fun v e => match e with Solar.Resize W H => (W, H) | _ => v end)
            es (Three.innerWidth w, Three.innerHeight w).

Definition detailed_viewport (w : Three.Window) (es : list Detailed.Event) : Q * Q :=
  fold_left (fun v e => match e with Detailed.Resize W H => (W, H) | _ => v end)
            es (Three.innerWidth w, Three.innerHeight w).

Definition room_viewport (w : Three.Window) (es : list Room.Event) : Q * Q :=
  fold_left (fun v e => match e with Room.Resize W H => (W, H) | _ => v end)
            es (Three.innerWidth w, Three.innerHeight w).

(** The display refreshes and the timer firings among the events of the
    room. *)
Definition room_is_frame (e : Room.Event) : bool :=
  match e with Room.Frame _ => true | _ => false end.
Definition room_is_timeout (e : Room.Event) : bool :=
  match e with Room.Timeout => true | _ => false end.
Definition room_frames (es : list Room.Event) : nat :=
  length (filter room_is_frame es).
Definition room_timeouts (es : list Room.Event) : nat :=
  length (filter room_is_timeout es).

(** ** The room: randomness, the painted text, the pose *)




(** The nine lines the side canvas shows at scroll position [c]: the lines
    of [codeLines] from [c] on, then those before [c]. *)
Definition scrolled (c : Z) : list (option string) :=
  Some <$> (drop (Z.to_nat c) Room.codeLines ++ take (Z.to_nat c) Room.codeLines).

(** The scene graph of the room as the script builds it, and as it is when
    the head and the arms have been given a pose. *)
Definition room_graph : Three.Graph :=
  Three.graph (Room.page (Room.script host0 window0)).

Definition posed (headY headX leftX rightX : Q) : Three.Graph :=
  Three.update 6 (Three.rotation_x_set rightX)
    (Three.update 5 (Three.rotation_x_set leftX)
       (Three.update 4 (Three.rotation_x_set headX)
          (Three.update 4 (Three.rotation_y_set headY) room_graph))).

(** ** The walls of the room ([createWall] of [src/script.js]) *)
Module Walls.

Inductive Material := wallMaterial | floorMaterial | panelMaterial.

(** A mesh with a [BoxGeometry], by its dimensions, its material and its
    [position.x] (the other coordinates stay 0). *)
Record BoxMesh := mkBoxMesh {
  box_width : Q;
  box_height : Q;
  box_depth : Q;
  box_material : Material;
  position_x : Q
}.

(** [new THREE.Mesh(new THREE.BoxGeometry(w, h, d), material)] *)
Definition new_BoxMesh (w h d : Q) (m : Material) : BoxMesh := mkBoxMesh w h d m 0.

Definition position_x_set (x : Q) (b : BoxMesh) : BoxMesh :=
  mkBoxMesh (box_width b) (box_height b) (box_depth b) (box_material b) x.

(** The body of the loop of [createWall] for the counter [i]. *)
Definition panel (width height : Q) (i : Z) : BoxMesh :=
  position_x_set (- width / 2 + inject_Z i * width * 0.25 + width * 0.125)
                 (new_BoxMesh (width * 0.15) height 0.25 panelMaterial).

(** [function createWall(width, height, material)]: the children of the
    group it returns, in the order they are added. *)
Definition createWall (width height : Q) (material : Material) : list BoxMesh :=
  new_BoxMesh width height 0.2 material
  :: map (panel width height) [0; 1; 2; 3; 4]%Z.

(** The extent of a mesh along x. *)
Definition left_edge (b : BoxMesh) : Q := position_x b - box_width b / 2.
Definition right_edge (b : BoxMesh) : Q := position_x b + box_width b / 2.

End Walls.

(** ** The star fields *)
Module Stars.

(** The loop [for (let i = 0; i < count; i++) { const x = (Math.random() -
    0.5) * spread; const y = ...; const z = ...; starsVertices.push(x, y,
    z); }] of the two solar-system scripts, drawing from call number [n]
    on: the vertices, and the number of the next call. *)
Fixpoint starsVertices (random : nat -> Q) (count : nat) (spread : Q) (n : nat)
    : list Q * nat :=
  match count with
  | O => ([], n)
  | S count =>
      let x := (random n - 0.5) * spread in
      let y := (random (S n) - 0.5) * spread in
      let z := (random (S (S n)) - 0.5) * spread in
      let (vs, n1) := starsVertices random count spread (S (S (S n))) in
      (x :: y :: z :: vs, n1)
  end.

(** The loop of the room: [x = -5 + (Math.random() - 0.5) * 8], [y = 1 +
    (Math.random() - 0.5) * 8], [z = -roomSize.depth / 2 - 2]. *)
Definition roomSize_depth : Q := 22.

Fixpoint starVertices (random : nat -> Q) (count : nat) (n : nat)
    : list (Q * Q * Q) * nat :=
  match count with
  | O => ([], n)
  | S count =>
      let x := -5 + (random n - 0.5) * 8 in
      let y := 1 + (random (S n) - 0.5) * 8 in
      let z := - roomSize_depth / 2 - 2 in
      let (vs, n1) := starVertices random count (S (S n)) in
      ((x, y, z) :: vs, n1)
  end.

End Stars.

(** ** Texture loads *)

(** No load is pending for the texture the loader will create next. *)
Definition next_texture_unused (l : Three.Loader) : Prop :=
  Forall (fun d => Three.load_texture d <> Three.next_texture l) (Three.loads l).

(** * Properties *)

(** ** Accumulation and congruence *)

Lemma iter_S {A : Type} (k : nat) (f : A -> A) (x : A) :
  Nat.iter (S k) f x = f (Nat.iter k f x).
Proof. reflexivity. Qed.

Lemma accumulate_S (k : nat) (w x : Q) :
  accumulate (S k) w x = accumulate k w x + w.
Proof. reflexivity. Qed.

Lemma accumulate_closed (k : nat) (w x : Q) :
  accumulate k w x == x + inject_Z (Z.of_nat k) * w.
Proof.
  induction k as [|k IH].
  - simpl. ring.
  - rewrite accumulate_S, IH, Nat2Z.inj_succ.
    unfold Z.succ. rewrite inject_Z_plus. ring.
Qed.

Lemma accumulate_lt (k : nat) (w x : Q) :
  0 < w -> accumulate k w x < accumulate (S k) w x.
Proof. intros Hw. rewrite accumulate_S. lra. Qed.

Lemma lookup_map {A B : Type} (f : A -> B) (l : list A) (i : nat) :
  map f l !! i = f <$> l !! i.
Proof.
  revert i. induction l as [|x l IH]; intros [|i]; simpl; auto.
Qed.

Lemma elem_of_map {A B : Type} (f : A -> B) (l : list A) (y : B) :
  y ∈ map f l <-> exists x, y = f x /\ x ∈ l.
Proof.
  split.
  - intros H. apply list_elem_of_In, in_map_iff in H as (x & <- & Hx).
    exists x. split; [reflexivity|]. apply list_elem_of_In, Hx.
  - intros (x & -> & Hx). apply list_elem_of_In, in_map_iff.
    exists x. split; [reflexivity|]. apply list_elem_of_In, Hx.
Qed.

Lemma cong_2pi_refl (a b : Q) : a == b -> cong_2pi a b.
Proof. intros H. exists 0%Z. rewrite H. ring. Qed.

(** ** The scene graph under assignments *)
Module ThreeFacts.
Import Three.

Lemma lookup_update (id j : nat) (f : Object3D -> Object3D) (g : Graph) :
  objects (update id f g) !! j
  = if decide (id = j) then f <$> objects g !! j else objects g !! j.
Proof.
  unfold update; simpl. rewrite lookup_alter.
  destruct (decide (id = j)) as [->|]; reflexivity.
Qed.

Lemma effect_cons (w : nat * (Object3D -> Object3D)) ws (id : nat) (o : Object3D) :
  effect (w :: ws) id o
  = effect ws id (if decide (fst w = id) then snd w o else o).
Proof. reflexivity. Qed.

Lemma effect_app ws1 ws2 (id : nat) (o : Object3D) :
  effect (ws1 ++ ws2) id o = effect ws2 id (effect ws1 id o).
Proof. unfold effect. apply fold_left_app. Qed.

Lemma effect_other ws (id : nat) (o : Object3D) :
  id ∉ map fst ws -> effect ws id o = o.
Proof.
  revert o. induction ws as [|w ws IH]; intros o Hid; [reflexivity|].
  rewrite effect_cons. simpl in Hid.
  apply not_elem_of_cons in Hid as [Hw Hws].
  destruct (decide (fst w = id)) as [E|_]; [congruence|]. auto.
Qed.

(** The node of identity [id] after a sequence of assignments is the old
    node under the assignments that go through [id]. *)
Lemma apply_writes_lookup ws (id : nat) (g : Graph) :
  objects (apply_writes ws g) !! id = effect ws id <$> objects g !! id.
Proof.
  revert g. induction ws as [|w ws IH]; intros g.
  - simpl. destruct (objects g !! id); reflexivity.
  - change (apply_writes (w :: ws) g)
      with (apply_writes ws (update (fst w) (snd w) g)).
    rewrite IH, lookup_update.
    destruct (objects g !! id) as [o|] eqn:Ho;
      destruct (decide (fst w = id)) as [E|E]; simpl;
      rewrite ?effect_cons; destruct (decide (fst w = id)); try congruence;
      reflexivity.
Qed.

Lemma present_of_rest (g g0 : Graph) (id : nat) :
  rest <$> objects g !! id = rest <$> objects g0 !! id ->
  is_Some (objects g0 !! id) -> is_Some (objects g !! id).
Proof.
  intros H [o0 H0]. rewrite H0 in H.
  destruct (objects g !! id) as [o|]; [exists o; reflexivity | discriminate].
Qed.

Lemma apply_writes_app ws1 ws2 (g : Graph) :
  apply_writes (ws1 ++ ws2) g = apply_writes ws2 (apply_writes ws1 g).
Proof. unfold apply_writes. apply fold_left_app. Qed.

Lemma apply_writes_next ws (g : Graph) :
  next_object (apply_writes ws g) = next_object g.
Proof.
  revert g. induction ws as [|w ws IH]; intros g; [reflexivity|].
  change (apply_writes (w :: ws) g)
    with (apply_writes ws (update (fst w) (snd w) g)).
  rewrite IH. reflexivity.
Qed.

Lemma set_rotation_only (h : Euler -> Euler) : rotation_only (set_rotation h).
Proof. intros o. reflexivity. Qed.

Lemma effect_rotation_only ws (id : nat) (o : Object3D) :
  Forall (fun w => rotation_only (snd w)) ws -> rest (effect ws id o) = rest o.
Proof.
  revert o. induction ws as [|w ws IH]; intros o Hws; [reflexivity|].
  apply Forall_cons in Hws as [Hw Hws].
  rewrite effect_cons, IH by assumption.
  destruct (decide (fst w = id)); [apply Hw | reflexivity].
Qed.

(** The pages of [render], [log] and the setters, field by field. *)
Lemma trace_render (p : Page) : trace (render p) = trace p ++ [Render].
Proof. reflexivity. Qed.

Lemma frames_render (p : Page) :
  frames (render p)
  = frames p ++ [mkFrame (projection_aspect (camera p)) (width (renderer p))
                         (height (renderer p))].
Proof. reflexivity. Qed.

End ThreeFacts.

(** ** The planet-group solar system *)
Module SolarFacts.
Import Three ThreeFacts Solar.

Lemma forEach_animate_spec (pgs : list PlanetGroup) (g : Graph) :
  forEach_animate pgs g
  = (map advance pgs, apply_writes (flat_map writes pgs) g).
Proof.
  revert g. induction pgs as [|pg pgs IH]; intros g; [reflexivity|].
  simpl. unfold animate_planet. rewrite IH. reflexivity.
Qed.

(** [animate], statement by statement. *)
Lemma animate_eq (s : State) :
  animate s
  = mkState
      (render
         (set_graph (fun _ => apply_writes (frame_writes s) (graph (page s)))
            (log AngleAccumulation
               (controls_update (requestAnimationFrame cb_animate (page s))))))
      (sun s) (map advance (planetGroups s)).
Proof. unfold animate. simpl. rewrite forEach_animate_spec. reflexivity. Qed.

Lemma animate_planetGroups (s : State) :
  planetGroups (animate s) = map advance (planetGroups s).
Proof. rewrite animate_eq. reflexivity. Qed.

Lemma animate_graph (s : State) :
  graph (page (animate s)) = apply_writes (frame_writes s) (graph (page s)).
Proof. rewrite animate_eq. reflexivity. Qed.

Lemma animate_trace (s : State) :
  trace (page (animate s))
  = trace (page s) ++ [ControlsUpdate; AngleAccumulation; Render].
Proof.
  rewrite animate_eq. simpl. rewrite <- !app_assoc. reflexivity.
Qed.

Lemma animate_rafQueue (s : State) :
  rafQueue (page (animate s)) = rafQueue (page s) ++ [cb_animate].
Proof. rewrite animate_eq. reflexivity. Qed.

Lemma animate_frames (s : State) :
  frames (page (animate s))
  = frames (page s)
    ++ [mkFrame (projection_aspect (camera (page s)))
                (width (renderer (page s))) (height (renderer (page s)))].
Proof. rewrite animate_eq. reflexivity. Qed.

Lemma animate_sun (s : State) : sun (animate s) = sun s.
Proof. rewrite animate_eq. reflexivity. Qed.

(** A display refresh of a page whose only requested callback is
    [animate] is one call of [animate]. *)
Lemma refresh_eq (s : State) :
  rafQueue (page s) = [cb_animate] ->
  refresh s = animate (set_page (set_rafQueue (fun _ => [])) s).
Proof. intros H. unfold refresh. rewrite H. reflexivity. Qed.

Lemma run_snoc (es : list Event) (e : Event) (s : State) :
  run (es ++ [e]) s = step e (run es s).
Proof. unfold run. rewrite fold_left_app. reflexivity. Qed.

Lemma run_nil (w : Window) : run [] (init w) = animate (created w).
Proof. unfold run, init. reflexivity. Qed.

Lemma ticks_snoc (es : list Event) (e : Event) :
  ticks (es ++ [e]) = if is_frame e then S (ticks es) else ticks es.
Proof.
  unfold ticks. rewrite filter_app, length_app.
  destruct e; simpl; lia.
Qed.

(** Induction over the states the page goes through, with the number of
    calls of [animate] so far. *)
Lemma reach_ind (w : Window) (P : nat -> State -> Prop) :
  P 1%nat (init w) ->
  (forall k s e, P k s -> P (if is_frame e then S k else k) (step e s)) ->
  forall es, P (ticks es) (run es (init w)).
Proof.
  intros H0 Hstep es. induction es as [|e es IH] using rev_ind.
  - exact H0.
  - rewrite run_snoc, ticks_snoc. apply Hstep, IH.
Qed.

Lemma rafQueue_run (w : Window) (es : list Event) :
  rafQueue (page (run es (init w))) = [cb_animate].
Proof.
  apply (reach_ind w (fun _ s => rafQueue (page s) = [cb_animate])).
  - reflexivity.
  - intros k s e H. destruct e; simpl; try assumption.
    rewrite refresh_eq by assumption. rewrite animate_rafQueue. reflexivity.
Qed.

Lemma step_frame (w : Window) (es : list Event) (t : Q) :
  step (Frame t) (run es (init w))
  = animate (set_page (set_rafQueue (fun _ => [])) (run es (init w))).
Proof. simpl. apply refresh_eq, rafQueue_run. Qed.

(** The planet groups after the events: each has been advanced once per
    call of [animate]. *)
Lemma planetGroups_run (w : Window) (es : list Event) :
  planetGroups (run es (init w))
  = map (advance_by (ticks es)) (planetGroups (created w)).
Proof.
  apply (reach_ind w (fun k s =>
    rafQueue (page s) = [cb_animate]
    /\ planetGroups s = map (advance_by k) (planetGroups (created w)))).
  - split; [reflexivity|]. unfold init. rewrite animate_planetGroups.
    reflexivity.
  - intros k s e [Hq H].
    destruct e; cbn [step is_frame]; try (split; assumption).
    rewrite refresh_eq by assumption. split.
    + rewrite animate_rafQueue. reflexivity.
    + rewrite animate_planetGroups. cbn [planetGroups set_page].
      rewrite H, map_map. reflexivity.
Qed.

Lemma advance_by_fields (k : nat) (pg : PlanetGroup) :
  mesh (advance_by k pg) = mesh pg
  /\ orbitGroup (advance_by k pg) = orbitGroup pg
  /\ params (advance_by k pg) = params pg
  /\ angle (advance_by k pg) = accumulate k (orbitSpeed (params pg)) (angle pg).
Proof.
  induction k as [|k (Hm & Ho & Hp & Ha)]; [repeat split|].
  unfold advance_by in *. simpl. rewrite Hm, Ho, Hp, Ha. repeat split.
Qed.

(** The script's planet groups do not depend on the window. *)
Lemma created_planetGroups (w : Window) :
  planetGroups (created w) = planetGroups (created window0).
Proof. vm_compute. reflexivity. Qed.

Lemma created_graph (w : Window) :
  graph (page (created w)) = graph (page (created window0)).
Proof. vm_compute. reflexivity. Qed.

Lemma created_sun (w : Window) : sun (created w) = sun (created window0).
Proof. vm_compute. reflexivity. Qed.

(** [angle: idx * Math.PI / 4] *)
Lemma created_angles (w : Window) :
  angle <$> planetGroups (created w)
  = (fun idx => inject_Z (Z.of_nat idx) * Math_PI / 4) <$> seq 0 9.
Proof. vm_compute. reflexivity. Qed.

Lemma created_angle (w : Window) (i : nat) (pg0 : PlanetGroup) :
  planetGroups (created w) !! i = Some pg0 ->
  angle pg0 = inject_Z (Z.of_nat i) * Math_PI / 4.
Proof.
  intros H.
  assert (Ha : (angle <$> planetGroups (created w)) !! i = Some (angle pg0))
    by (rewrite list_lookup_fmap, H; reflexivity).
  rewrite created_angles, list_lookup_fmap in Ha.
  destruct (seq 0 9 !! i) as [j|] eqn:Hj; [|discriminate].
  apply lookup_seq in Hj as [-> _]. simpl in Ha. congruence.
Qed.

Lemma planetGroup_run (w : Window) (es : list Event) (i : nat) (pg0 : PlanetGroup) :
  planetGroups (created w) !! i = Some pg0 ->
  planetGroups (run es (init w)) !! i = Some (advance_by (ticks es) pg0).
Proof.
  intros H. rewrite planetGroups_run, lookup_map, H. reflexivity.
Qed.

(** C1, as amended: after the calls of [animate] the accumulated angle of
    the planet group of index [i] is its staggered start, [i * Math.PI / 4],
    with the planet's [orbitSpeed] added once per call, whatever the
    timestamps of the frames and whatever other events come between them;
    in closed form, [i * Math.PI / 4 + ticks * orbitSpeed]. *)
Theorem angle_after_ticks (w : Window) (es : list Event) (i : nat)
    (pg0 : PlanetGroup) :
  planetGroups (created w) !! i = Some pg0 ->
  exists pg,
    planetGroups (run es (init w)) !! i = Some pg
    /\ params pg = params pg0
    /\ angle pg
       = accumulate (ticks es) (orbitSpeed (params pg0))
                    (inject_Z (Z.of_nat i) * Math_PI / 4)
    /\ angle pg
       == inject_Z (Z.of_nat i) * Math_PI / 4
          + inject_Z (Z.of_nat (ticks es)) * orbitSpeed (params pg0).
Proof.
  intros H. exists (advance_by (ticks es) pg0).
  destruct (advance_by_fields (ticks es) pg0) as (_ & _ & Hp & Ha).
  rewrite (created_angle w i pg0 H) in Ha.
  repeat split.
  - apply planetGroup_run, H.
  - exact Hp.
  - exact Ha.
  - rewrite Ha. apply accumulate_closed.
Qed.

Lemma angle_after_ticks_witness :
  exists pg,
    planetGroups (run [Frame 16; Resize 800 600; Frame 33] (init window0)) !! 1%nat
    = Some pg
    /\ angle pg == inject_Z 1 * Math_PI / 4 + inject_Z 3 * 0.007.
Proof.
  assert (H : exists pg0, planetGroups (created window0) !! 1%nat = Some pg0
                          /\ orbitSpeed (params pg0) = 0.007)
    by (eexists; split; vm_compute; reflexivity).
  destruct H as (pg0 & H & Hw).
  destruct (angle_after_ticks window0 [Frame 16; Resize 800 600; Frame 33]
              1%nat pg0 H) as (pg & Hpg & _ & _ & Ha).
  exists pg. split; [exact Hpg|]. rewrite Ha, Hw. reflexivity.
Defined.

(** C1, as the spec states it, fails: once the script has run (one call of
    [animate]), Venus, the planet group of index 1, is at
    [Math.PI / 4 + 0.007], which is not [1 * 0.007] modulo a full turn. *)
Lemma venus_angle_not_congruent :
  exists pg,
    planetGroups (run [] (init window0)) !! 1%nat = Some pg
    /\ ~ cong_2pi (angle pg)
                  (inject_Z (Z.of_nat (ticks [])) * orbitSpeed (params pg)).
Proof.
  eexists. split; [vm_compute; reflexivity|].
  intros [n Hn].
  unfold Qeq, Qminus, Qplus, Qmult, Qopp, inject_Z, Math_PI in Hn.
  cbn [Qnum Qden angle params orbitSpeed] in Hn. lia.
Qed.

Lemma sun_run (w : Window) (es : list Event) :
  sun (run es (init w)) = sun (created w).
Proof.
  induction es as [|e es IH] using rev_ind.
  - rewrite run_nil. apply animate_sun.
  - rewrite run_snoc. destruct e; try exact IH.
    rewrite step_frame, animate_sun. exact IH.
Qed.

Lemma ids_of_advance_by (k : nat) (pgs : list PlanetGroup) :
  flat_map ids_of (map (advance_by k) pgs) = flat_map ids_of pgs.
Proof.
  induction pgs as [|pg pgs IH]; [reflexivity|]. simpl. rewrite IH.
  destruct (advance_by_fields k pg) as (Hm & Ho & _). rewrite Hm, Ho.
  reflexivity.
Qed.

Lemma ids_run (w : Window) (es : list Event) :
  ids (run es (init w)) = ids (created w).
Proof.
  unfold ids. rewrite sun_run, planetGroups_run, ids_of_advance_by.
  reflexivity.
Qed.

Lemma created_ids_NoDup (w : Window) : NoDup (ids (created w)).
Proof.
  unfold ids. rewrite created_sun, created_planetGroups.
  apply (bool_decide_unpack _). vm_compute. exact I.
Qed.

Lemma writes_targets (pgs : list PlanetGroup) :
  map fst (flat_map writes pgs) = flat_map ids_of pgs.
Proof.
  induction pgs as [|pg pgs IH]; [reflexivity|]. simpl. rewrite IH. reflexivity.
Qed.

Lemma frame_writes_rotation_only (s : State) :
  Forall (fun w => rotation_only (snd w)) (frame_writes s).
Proof.
  unfold frame_writes. constructor; [apply set_rotation_only|].
  induction (planetGroups s) as [|pg pgs IH]; [constructor|].
  simpl. repeat (constructor; [apply set_rotation_only|]). exact IH.
Qed.

Lemma animate_lookup (s : State) (id : nat) :
  objects (graph (page (animate s))) !! id
  = effect (frame_writes s) id <$> objects (graph (page s)) !! id.
Proof. rewrite animate_graph. apply apply_writes_lookup. Qed.

Lemma animate_rest (s : State) (id : nat) :
  rest <$> objects (graph (page (animate s))) !! id
  = rest <$> objects (graph (page s)) !! id.
Proof.
  rewrite animate_lookup.
  destruct (objects (graph (page s)) !! id) as [o|]; [|reflexivity].
  cbn [fmap option_fmap option_map]. f_equal.
  apply effect_rotation_only, frame_writes_rotation_only.
Qed.

(** No event changes anything of a node but its rotation. *)
Lemma rest_run (w : Window) (es : list Event) (id : nat) :
  rest <$> objects (graph (page (run es (init w)))) !! id
  = rest <$> objects (graph (page (created w))) !! id.
Proof.
  induction es as [|e es IH] using rev_ind.
  - rewrite run_nil. apply animate_rest.
  - rewrite run_snoc. destruct e; try exact IH.
    rewrite step_frame, animate_rest. exact IH.
Qed.

(** After a call of [animate] each orbit group's rotation is the angle of
    its planet group. *)
Lemma animate_orbit (s : State) (pg : PlanetGroup) (o : Object3D) :
  NoDup (ids s) -> pg ∈ planetGroups s ->
  objects (graph (page s)) !! orbitGroup pg = Some o ->
  exists o1,
    objects (graph (page (animate s))) !! orbitGroup (advance pg) = Some o1
    /\ e_y (rotation o1) = angle (advance pg).
Proof.
  intros Hnd Hpg Ho.
  change (orbitGroup (advance pg)) with (orbitGroup pg).
  rewrite animate_lookup, Ho. eexists. split; [reflexivity|].
  apply list_elem_of_split in Hpg as (l1 & l2 & Hl).
  unfold ids in Hnd. unfold frame_writes. rewrite Hl in *.
  apply NoDup_cons in Hnd as [_ Hnd].
  rewrite flat_map_app in Hnd. apply NoDup_app in Hnd as (_ & _ & Hnd).
  simpl in Hnd. apply NoDup_cons in Hnd as [Hne Hnd].
  apply not_elem_of_cons in Hne as [Hne Hl2].
  rewrite effect_cons, flat_map_app, effect_app. simpl flat_map.
  rewrite !effect_cons. simpl fst; simpl snd.
  destruct (decide (orbitGroup pg = orbitGroup pg)) as [_|]; [|congruence].
  destruct (decide (mesh pg = orbitGroup pg)) as [E|_]; [congruence|].
  rewrite effect_other by (rewrite writes_targets; exact Hl2).
  reflexivity.
Qed.

Lemma orbit_rotation_run (w : Window) (es : list Event) (pg : PlanetGroup) :
  pg ∈ planetGroups (run es (init w)) ->
  exists o,
    objects (graph (page (run es (init w)))) !! orbitGroup pg = Some o
    /\ e_y (rotation o) = angle pg.
Proof.
  assert (Hpresent : forall s,
    (forall id, rest <$> objects (graph (page s)) !! id
                = rest <$> objects (graph (page (created w))) !! id) ->
    ids s = ids (created w) ->
    forall pg0, pg0 ∈ planetGroups s ->
    is_Some (objects (graph (page s)) !! orbitGroup pg0)).
  { intros s Hrest Hids pg0 Hpg0.
    assert (Hin : orbitGroup pg0 ∈ ids s).
    { unfold ids. right. apply list_elem_of_In, in_flat_map.
      exists pg0. split; [apply list_elem_of_In, Hpg0 | left; reflexivity]. }
    rewrite Hids in Hin. specialize (Hrest (orbitGroup pg0)).
    assert (Hc : is_Some (objects (graph (page (created w))) !! orbitGroup pg0)).
    { revert Hin. generalize (orbitGroup pg0). apply Forall_forall.
      unfold ids. rewrite created_sun, created_planetGroups, created_graph.
      apply (bool_decide_unpack _). vm_compute. exact I. }
    apply (present_of_rest _ _ _ Hrest Hc). }
  revert pg. induction es as [|e es IH] using rev_ind; intros pg Hpg.
  - rewrite run_nil in *. rewrite animate_planetGroups in Hpg.
    apply elem_of_map in Hpg as (pg0 & -> & Hpg0).
    destruct (Hpresent (created w)) with (pg0 := pg0) as [o Ho]; auto.
    apply (animate_orbit _ _ o); auto using created_ids_NoDup.
  - rewrite run_snoc in *. destruct e; try (apply IH; exact Hpg).
    rewrite step_frame in *. rewrite animate_planetGroups in Hpg.
    apply elem_of_map in Hpg as (pg0 & -> & Hpg0).
    cbn [planetGroups set_page] in Hpg0.
    destruct (Hpresent (run es (init w))) with (pg0 := pg0) as [o Ho];
      auto using rest_run, ids_run.
    apply (animate_orbit _ _ o); auto.
    change (NoDup (ids (run es (init w)))).
    rewrite ids_run. apply created_ids_NoDup.
Qed.

(** What the script creates for a planet: positive sizes and speeds, and a
    sphere of the planet's [size] placed at its [distance]. *)
Lemma created_shape (w : Window) (i : nat) (pg0 : PlanetGroup) :
  planetGroups (created w) !! i = Some pg0 ->
  0 < size (params pg0) /\ 0 < distance (params pg0)
  /\ 0 < orbitSpeed (params pg0)
  /\ exists o0,
       objects (graph (page (created w))) !! mesh pg0 = Some o0
       /\ geometry o0 = SphereGeometry (size (params pg0)) 64 64
       /\ v_x (position o0) = distance (params pg0).
Proof.
  intros H. rewrite created_planetGroups in H. rewrite created_graph.
  do 9 (destruct i as [|i];
        [ vm_compute in H; injection H as <-;
          do 3 (split; [vm_compute; reflexivity|]);
          eexists; split; [vm_compute; reflexivity|];
          split; vm_compute; reflexivity |]).
  vm_compute in H. discriminate.
Qed.

Lemma mesh_shape_run (w : Window) (es : list Event) (i : nat) (pg0 : PlanetGroup) :
  planetGroups (created w) !! i = Some pg0 ->
  exists o,
    objects (graph (page (run es (init w)))) !! mesh pg0 = Some o
    /\ geometry o = SphereGeometry (size (params pg0)) 64 64
    /\ v_x (position o) = distance (params pg0).
Proof.
  intros H. destruct (created_shape w i pg0 H) as (_ & _ & _ & o0 & Ho0 & Hg & Hx).
  pose proof (rest_run w es (mesh pg0)) as Hr. rewrite Ho0 in Hr.
  destruct (objects (graph (page (run es (init w)))) !! mesh pg0) as [o|];
    [|discriminate].
  exists o. split; [reflexivity|].
  injection Hr as _ Hpos Hgeo _ _ _. rewrite Hgeo, Hpos. auto.
Qed.

(** The frame after a resize is drawn with the new aspect ratio and
    size. *)
Lemma resize_then_frame (w : Window) (es : list Event) (W H t : Q) :
  let s1 := step (Resize W H) (run es (init w)) in
  aspect (camera (page s1)) = W / H
  /\ width (renderer (page s1)) = W /\ height (renderer (page s1)) = H
  /\ last (frames (page (step (Frame t) s1))) = Some (mkFrame (W / H) W H).
Proof.
  intros s1. repeat split.
  subst s1. rewrite <- run_snoc, step_frame, animate_frames, last_snoc.
  rewrite run_snoc. reflexivity.
Qed.

(** The operations of a tick, in order. *)
Lemma performed_frame (w : Window) (es : list Event) (t : Q) :
  performed (Frame t) (run es (init w))
  = [ControlsUpdate; AngleAccumulation; Render].
Proof.
  unfold performed. rewrite step_frame, animate_trace.
  cbn [page set_page trace set_rafQueue]. apply drop_app_length.
Qed.

End SolarFacts.

(** ** The detailed solar system *)
Module DetailedFacts.
Import Three ThreeFacts Detailed.

Lemma animate_planet_writes (p : Planet) (g : Graph) :
  animate_planet p g = apply_writes (writes p) g.
Proof.
  unfold animate_planet, tilt_statement, spin_statement, moon_statement,
    orbit_statement, writes.
  destruct (cloudsMesh (data p)), (nightLightsMesh (data p)),
    (bool_decide (name (data p) = "Earth")), (moon (data p)); reflexivity.
Qed.

Lemma forEach_animate_writes (ps : list Planet) (g : Graph) :
  forEach_animate ps g = apply_writes (flat_map writes ps) g.
Proof.
  revert g. induction ps as [|p ps IH]; intros g; [reflexivity|].
  change (forEach_animate (p :: ps) g)
    with (forEach_animate ps (animate_planet p g)).
  cbn [flat_map]. rewrite apply_writes_app, IH, animate_planet_writes.
  reflexivity.
Qed.

Lemma detailed_animate_eq (s : State) :
  animate s
  = mkState
      (render
         (set_graph (fun _ => apply_writes (frame_writes s) (graph (page s)))
            (log AngleAccumulation
               (controls_update (requestAnimationFrame cb_animate (page s))))))
      (sun s) (planets s).
Proof.
  unfold animate, render, set_graph. simpl.
  rewrite forEach_animate_writes. reflexivity.
Qed.

Lemma detailed_animate_graph (s : State) :
  graph (page (animate s)) = apply_writes (frame_writes s) (graph (page s)).
Proof. rewrite detailed_animate_eq. reflexivity. Qed.

Lemma animate_planets (s : State) : planets (animate s) = planets s.
Proof. reflexivity. Qed.

Lemma detailed_animate_sun (s : State) : sun (animate s) = sun s.
Proof. reflexivity. Qed.

Lemma detailed_animate_trace (s : State) :
  trace (page (animate s))
  = trace (page s) ++ [ControlsUpdate; AngleAccumulation; Render].
Proof.
  rewrite detailed_animate_eq. simpl. rewrite <- !app_assoc. reflexivity.
Qed.

Lemma detailed_animate_rafQueue (s : State) :
  rafQueue (page (animate s)) = rafQueue (page s) ++ [cb_animate].
Proof. rewrite detailed_animate_eq. reflexivity. Qed.

Lemma detailed_animate_frames (s : State) :
  frames (page (animate s))
  = frames (page s)
    ++ [mkFrame (projection_aspect (camera (page s)))
                (width (renderer (page s))) (height (renderer (page s)))].
Proof. rewrite detailed_animate_eq. reflexivity. Qed.

Lemma detailed_refresh_eq (s : State) :
  rafQueue (page s) = [cb_animate] ->
  refresh s = animate (set_page (set_rafQueue (fun _ => [])) s).
Proof. intros H. unfold refresh. rewrite H. reflexivity. Qed.

Lemma detailed_run_snoc (es : list Event) (e : Event) (s : State) :
  run (es ++ [e]) s = step e (run es s).
Proof. unfold run. rewrite fold_left_app. reflexivity. Qed.

Lemma detailed_run_nil (w : Window) : run [] (init w) = animate (created w).
Proof. unfold run, init. reflexivity. Qed.

Lemma detailed_ticks_snoc (es : list Event) (e : Event) :
  ticks (es ++ [e]) = if is_frame e then S (ticks es) else ticks es.
Proof.
  unfold ticks. rewrite filter_app, length_app.
  destruct e; simpl; lia.
Qed.

Lemma detailed_rafQueue_run (w : Window) (es : list Event) :
  rafQueue (page (run es (init w))) = [cb_animate].
Proof.
  induction es as [|e es IH] using rev_ind.
  - rewrite detailed_run_nil, detailed_animate_rafQueue. vm_compute. reflexivity.
  - rewrite detailed_run_snoc. destruct e as [t|W H|tx|tx]; [|exact IH..].
    cbn [step]. rewrite detailed_refresh_eq by exact IH.
    rewrite detailed_animate_rafQueue. reflexivity.
Qed.

Lemma detailed_step_frame (w : Window) (es : list Event) (t : Q) :
  step (Frame t) (run es (init w))
  = animate (set_page (set_rafQueue (fun _ => [])) (run es (init w))).
Proof. cbn [step]. apply detailed_refresh_eq, detailed_rafQueue_run. Qed.

Lemma planets_run (w : Window) (es : list Event) :
  planets (run es (init w)) = planets (created w)
  /\ sun (run es (init w)) = sun (created w).
Proof.
  induction es as [|e es IH] using rev_ind.
  - rewrite detailed_run_nil. split; [apply animate_planets | apply detailed_animate_sun].
  - rewrite detailed_run_snoc. destruct e as [t|W H|tx|tx]; [|exact IH..].
    rewrite detailed_step_frame, animate_planets, detailed_animate_sun. exact IH.
Qed.

Lemma frame_writes_run (w : Window) (es : list Event) :
  frame_writes (run es (init w)) = frame_writes (created w).
Proof.
  unfold frame_writes. destruct (planets_run w es) as [-> ->]. reflexivity.
Qed.

(** The scene graph after the events: the assignments of one call of
    [animate], once per call. *)
Lemma graph_run (w : Window) (es : list Event) :
  graph (page (run es (init w)))
  = Nat.iter (ticks es) (apply_writes (frame_writes (created w)))
             (graph (page (created w))).
Proof.
  induction es as [|e es IH] using rev_ind.
  - rewrite detailed_run_nil. apply detailed_animate_graph.
  - rewrite detailed_run_snoc, detailed_ticks_snoc. destruct e as [t|W H|tx|tx]; [|exact IH..].
    rewrite detailed_step_frame, detailed_animate_graph. cbn [is_frame]. rewrite iter_S, <- IH.
    f_equal. apply (frame_writes_run w es).
Qed.

Lemma lookup_iter ws (k id : nat) (g : Graph) :
  objects (Nat.iter k (apply_writes ws) g) !! id
  = Nat.iter k (effect ws id) <$> objects g !! id.
Proof.
  induction k as [|k IH].
  - simpl. destruct (objects g !! id); reflexivity.
  - rewrite iter_S, apply_writes_lookup, IH.
    destruct (objects g !! id); reflexivity.
Qed.

Lemma lookup_run (w : Window) (es : list Event) (id : nat) :
  objects (graph (page (run es (init w)))) !! id
  = Nat.iter (ticks es) (effect (frame_writes (created w)) id)
    <$> objects (graph (page (created w))) !! id.
Proof. rewrite graph_run. apply lookup_iter. Qed.

Lemma created_planets (w : Window) :
  planets (created w) = planets (created window0).
Proof. vm_compute. reflexivity. Qed.

Lemma detailed_created_graph (w : Window) :
  graph (page (created w)) = graph (page (created window0)).
Proof. vm_compute. reflexivity. Qed.

Lemma detailed_created_sun (w : Window) : sun (created w) = sun (created window0).
Proof. vm_compute. reflexivity. Qed.

Lemma created_frame_writes (w : Window) :
  frame_writes (created w) = frame_writes (created window0).
Proof.
  unfold frame_writes. rewrite created_planets, detailed_created_sun. reflexivity.
Qed.

Lemma iter_rotation_y_add (k : nat) (c : Q) (o : Object3D) :
  e_y (rotation (Nat.iter k (rotation_y_add c) o)) = accumulate k c (e_y (rotation o))
  /\ e_x (rotation (Nat.iter k (rotation_y_add c) o)) = e_x (rotation o)
  /\ rest (Nat.iter k (rotation_y_add c) o) = rest o.
Proof.
  induction k as [|k (IHy & IHx & IHr)]; [repeat split|].
  rewrite iter_S, accumulate_S, <- IHy, <- IHx, <- IHr. repeat split.
Qed.

Lemma iter_ext {A : Type} (f h : A -> A) (k : nat) (x : A) :
  (forall y, f y = h y) -> Nat.iter k f x = Nat.iter k h x.
Proof.
  intros E. induction k as [|k IH]; [reflexivity|].
  rewrite !iter_S, IH. apply E.
Qed.

(** What one call of [animate] does to the nodes of a planet, and how the
    script leaves them: the mesh is tilted and spun, the orbit group is
    turned, the moon's orbit group and the moon are turned at their own
    fixed speeds. *)
Lemma created_effects (i : nat) (p : Planet) :
  planets (created window0) !! i = Some p ->
  (forall o, effect (frame_writes (created window0)) (mesh p) o
             = rotation_y_add (0.05 / rotationPeriod (data p))
                 (rotation_x_set (tilt (data p)) o))
  /\ (forall o, effect (frame_writes (created window0)) (orbitGroup p) o
                = rotation_y_add (0.005 / orbitalPeriod (data p)) o)
  /\ (exists om oo,
        objects (graph (page (created window0))) !! mesh p = Some om
        /\ rotation om = mkEuler 0 0 0 /\ parent om = Some (orbitGroup p)
        /\ objects (graph (page (created window0))) !! orbitGroup p = Some oo
        /\ rotation oo = mkEuler 0 0 0 /\ parent oo = Some scene)
  /\ (forall m, moon (data p) = Some m ->
        (forall o, effect (frame_writes (created window0)) (moon_orbitGroup m) o
                   = rotation_y_add 0.02 o)
        /\ (forall o, effect (frame_writes (created window0)) (moon_mesh m) o
                      = rotation_y_add 0.005 o)
        /\ exists oo om,
             objects (graph (page (created window0))) !! moon_orbitGroup m = Some oo
             /\ rotation oo = mkEuler 0 0 0 /\ parent oo = Some (mesh p)
             /\ objects (graph (page (created window0))) !! moon_mesh m = Some om
             /\ rotation om = mkEuler 0 0 0
             /\ parent om = Some (moon_orbitGroup m)).
Proof.
  intros H.
  do 8 (destruct i as [|i];
        [ vm_compute in H; injection H as <-;
          split; [intros o; vm_compute; reflexivity|];
          split; [intros o; vm_compute; reflexivity|];
          split;
          [ do 2 eexists; split; [vm_compute; reflexivity|];
            split; [vm_compute; reflexivity|];
            split; [vm_compute; reflexivity|];
            split; [vm_compute; reflexivity|];
            split; vm_compute; reflexivity
          | intros m Hm; vm_compute in Hm;
            first
              [ discriminate
              | injection Hm as <-;
                split; [intros o; vm_compute; reflexivity|];
                split; [intros o; vm_compute; reflexivity|];
                do 2 eexists; split; [vm_compute; reflexivity|];
                split; [vm_compute; reflexivity|];
                split; [vm_compute; reflexivity|];
                split; [vm_compute; reflexivity|];
                split; vm_compute; reflexivity ] ] |]).
  vm_compute in H. discriminate.
Qed.

Lemma iter_tilt_spin (k : nat) (c v : Q) (o : Object3D) :
  let f := fun o => rotation_y_add c (rotation_x_set v o) in
  e_y (rotation (Nat.iter k f o)) = accumulate k c (e_y (rotation o))
  /\ e_x (rotation (Nat.iter (S k) f o)) = v
  /\ rest (Nat.iter k f o) = rest o.
Proof.
  intros f. split; [|split].
  - induction k as [|k IH]; [reflexivity|].
    rewrite iter_S, accumulate_S, <- IH. reflexivity.
  - rewrite iter_S. reflexivity.
  - induction k as [|k IH]; [reflexivity|]. rewrite iter_S, <- IH. reflexivity.
Qed.

Lemma ticks_pos (es : list Event) : exists n, ticks es = S n.
Proof. eexists. reflexivity. Qed.

(** A planet's mesh and orbit group after the events. *)
Lemma planet_nodes_run (w : Window) (es : list Event) (i : nat) (p : Planet) :
  planets (created w) !! i = Some p ->
  exists om oo,
    objects (graph (page (run es (init w)))) !! mesh p = Some om
    /\ e_x (rotation om) = tilt (data p)
    /\ e_y (rotation om)
       = accumulate (ticks es) (0.05 / rotationPeriod (data p)) 0
    /\ parent om = Some (orbitGroup p)
    /\ objects (graph (page (run es (init w)))) !! orbitGroup p = Some oo
    /\ e_y (rotation oo)
       = accumulate (ticks es) (0.005 / orbitalPeriod (data p)) 0
    /\ parent oo = Some scene.
Proof.
  intros H. rewrite created_planets in H.
  destruct (created_effects i p H)
    as (Em & Eo & (om0 & oo0 & Hm & Rm & Pm & Ho & Ro & Po) & _).
  rewrite !lookup_run, created_frame_writes, detailed_created_graph, Hm, Ho.
  cbn [fmap option_fmap option_map].
  rewrite (iter_ext _ _ _ _ Em), (iter_ext _ _ _ _ Eo).
  destruct (ticks_pos es) as [n Hn].
  destruct (iter_tilt_spin (ticks es) (0.05 / rotationPeriod (data p))
              (tilt (data p)) om0) as (Hy & _ & Hr).
  destruct (iter_tilt_spin n (0.05 / rotationPeriod (data p))
              (tilt (data p)) om0) as (_ & Hx & _).
  destruct (iter_rotation_y_add (ticks es) (0.005 / orbitalPeriod (data p)) oo0)
    as (Hoy & _ & Hor).
  cbv zeta in Hy, Hx, Hr. rewrite <- Hn in Hx.
  do 2 eexists. split; [reflexivity|].
  split; [exact Hx|]. split; [rewrite Hy, Rm; reflexivity|].
  split; [rewrite <- Pm; injection Hr; auto|].
  split; [reflexivity|].
  split; [rewrite Hoy, Ro; reflexivity|].
  rewrite <- Po. injection Hor; auto.
Qed.

(** The moon's orbit group and the moon after the events. *)
Lemma moon_nodes_run (w : Window) (es : list Event) (i : nat) (p : Planet)
    (m : Moon) :
  planets (created w) !! i = Some p -> moon (data p) = Some m ->
  exists oo om,
    objects (graph (page (run es (init w)))) !! moon_orbitGroup m = Some oo
    /\ e_y (rotation oo) = accumulate (ticks es) 0.02 0
    /\ parent oo = Some (mesh p)
    /\ objects (graph (page (run es (init w)))) !! moon_mesh m = Some om
    /\ e_y (rotation om) = accumulate (ticks es) 0.005 0
    /\ parent om = Some (moon_orbitGroup m).
Proof.
  intros H Hmoon. rewrite created_planets in H.
  destruct (created_effects i p H) as (_ & _ & _ & Hm).
  destruct (Hm m Hmoon) as (Eo & Em & oo0 & om0 & Ho & Ro & Po & Hmm & Rm & Pm).
  rewrite !lookup_run, created_frame_writes, detailed_created_graph, Ho, Hmm.
  cbn [fmap option_fmap option_map].
  rewrite (iter_ext _ _ _ _ Eo), (iter_ext _ _ _ _ Em).
  destruct (iter_rotation_y_add (ticks es) 0.02 oo0) as (Hoy & _ & Hor).
  destruct (iter_rotation_y_add (ticks es) 0.005 om0) as (Hmy & _ & Hmr).
  do 2 eexists. split; [reflexivity|].
  split; [rewrite Hoy, Ro; reflexivity|].
  split; [rewrite <- Po; injection Hor; auto|].
  split; [reflexivity|].
  split; [rewrite Hmy, Rm; reflexivity|].
  rewrite <- Pm. injection Hmr; auto.
Qed.

(** The identities of a planet with a moon are pairwise distinct where it
    matters: no assignment to the planet's orbit group, mesh or shells goes
    through the moon's orbit group. *)
Lemma moon_apart (w : Window) (i : nat) (p : Planet) (m : Moon) :
  planets (created w) !! i = Some p -> moon (data p) = Some m ->
  orbitGroup p <> moon_orbitGroup m /\ mesh p <> moon_orbitGroup m
  /\ cloudsMesh (data p) <> Some (moon_orbitGroup m)
  /\ nightLightsMesh (data p) <> Some (moon_orbitGroup m).
Proof.
  intros H Hm. rewrite created_planets in H.
  do 8 (destruct i as [|i];
        [ vm_compute in H; injection H as <-; vm_compute in Hm;
          try discriminate; injection Hm as <-;
          repeat split; vm_compute; discriminate |]).
  vm_compute in H. discriminate.
Qed.

Lemma detailed_resize_then_frame (w : Window) (es : list Event) (W H t : Q) :
  let s1 := step (Resize W H) (run es (init w)) in
  aspect (camera (page s1)) = W / H
  /\ width (renderer (page s1)) = W /\ height (renderer (page s1)) = H
  /\ last (frames (page (step (Frame t) s1))) = Some (mkFrame (W / H) W H).
Proof.
  intros s1. repeat split.
  subst s1. rewrite <- detailed_run_snoc, detailed_step_frame, detailed_animate_frames, last_snoc.
  rewrite detailed_run_snoc. reflexivity.
Qed.

Lemma detailed_performed_frame (w : Window) (es : list Event) (t : Q) :
  performed (Frame t) (run es (init w))
  = [ControlsUpdate; AngleAccumulation; Render].
Proof.
  unfold performed. rewrite detailed_step_frame, detailed_animate_trace.
  cbn [page set_page trace set_rafQueue]. apply drop_app_length.
Qed.

End DetailedFacts.

(** ** The room *)
Module RoomFacts.
Import Three ThreeFacts Room.

Lemma animateMatrixRain_fields (E : Env) (s : State) :
  let s1 := animateMatrixRain E s in
  trace (page s1) = trace (page s) ++ [CanvasRepaint MatrixCanvas]
  /\ rafQueue (page s1) = rafQueue (page s) ++ [cb_animateMatrixRain]
  /\ timers (page s1) = timers (page s)
  /\ frames (page s1) = frames (page s)
  /\ camera (page s1) = camera (page s)
  /\ renderer (page s1) = renderer (page s)
  /\ graph (page s1) = graph (page s)
  /\ codeScroll s1 = codeScroll s /\ sideText s1 = sideText s
  /\ composer s1 = composer s.
Proof.
  unfold animateMatrixRain.
  destruct (rain_all E (mDrops s) (randoms s)) as [ds n].
  repeat split.
Qed.

Lemma animate_fields (E : Env) (now : Q) (s : State) :
  let s1 := animate E now s in
  trace (page s1) = trace (page s) ++ [ControlsUpdate; PoseUpdate; Render]
  /\ rafQueue (page s1) = rafQueue (page s) ++ [cb_animate]
  /\ timers (page s1) = timers (page s)
  /\ frames (page s1)
     = frames (page s)
       ++ [mkFrame (projection_aspect (camera (page s)))
                   (width (renderer (page s))) (height (renderer (page s)))]
  /\ camera (page s1) = camera (page s)
  /\ renderer (page s1) = renderer (page s)
  /\ codeScroll s1 = codeScroll s /\ sideText s1 = sideText s
  /\ composer s1 = composer s.
Proof.
  unfold animate.
  set (p3 := set_graph _ (set_graph _ _)).
  assert (Hp3 : trace p3 = trace (page s) ++ [ControlsUpdate; PoseUpdate]
                /\ rafQueue p3 = rafQueue (page s) ++ [cb_animate]
                /\ timers p3 = timers (page s) /\ frames p3 = frames (page s)
                /\ camera p3 = camera (page s) /\ renderer p3 = renderer (page s)).
  { subst p3. cbn. rewrite <- app_assoc. repeat split. }
  destruct Hp3 as (Ht & Hq & Hti & Hf & Hc & Hr). clearbody p3.
  destruct (getObjectByName "left_arm" (graph p3)) as [l|],
           (getObjectByName "right_arm" (graph p3)) as [r|];
    cbn; rewrite Ht, Hq, Hti, Hf, Hc, Hr, <- ?app_assoc; repeat split.
Qed.

Lemma animate_controls (E : Env) (now : Q) (s : State) :
  controls (page (animate E now s)) = controls (page s).
Proof.
  unfold animate.
  set (p3 := set_graph _ (set_graph _ _)).
  assert (Hp3 : controls p3 = controls (page s)) by reflexivity.
  clearbody p3.
  destruct (getObjectByName "left_arm" (graph p3)) as [l|],
           (getObjectByName "right_arm" (graph p3)) as [r|]; exact Hp3.
Qed.

Lemma animateMatrixRain_controls (E : Env) (s : State) :
  controls (page (animateMatrixRain E s)) = controls (page s).
Proof.
  unfold animateMatrixRain.
  destruct (rain_all E (mDrops s) (randoms s)) as [ds n]. reflexivity.
Qed.

(** The controller's settings once the script has run: damping on, the
    three speeds doubled, and the distance bounds left at their defaults. *)
Lemma controls_init (E : Env) (w : Window) (now : Q) :
  controls (page (init E w now)) = mkControls true 0.05 true 0 None 2 2 2.
Proof.
  unfold init. rewrite animate_controls.
  cbn [page set_page controls controls_update log set_camera animateCodeOutput
       setTimeout set_timers].
  rewrite animateMatrixRain_controls. unfold script.
  destruct (create_drops E mColumns 0) as [ds n]. reflexivity.
Qed.

Lemma animateCodeOutput_fields (s : State) :
  let s1 := animateCodeOutput s in
  trace (page s1) = trace (page s) ++ [CanvasRepaint SideCanvas]
  /\ rafQueue (page s1) = rafQueue (page s)
  /\ timers (page s1) = timers (page s) ++ [(cb_codeScroll, 800%Z)]
  /\ frames (page s1) = frames (page s)
  /\ codeScroll s1 = codeScroll s
  /\ sideText s1
     = map (fun i => codeLines_at (line_index (codeScroll s) i))
           [0; 1; 2; 3; 4; 5; 6; 7; 8]%Z.
Proof. repeat split. Qed.

Lemma room_refresh_eq (E : Env) (now : Q) (s : State) :
  rafQueue (page s) = [cb_animateMatrixRain; cb_animate] ->
  refresh E now s
  = animate E now
      (animateMatrixRain E (set_page (set_rafQueue (fun _ => [])) s)).
Proof. intros H. unfold refresh. rewrite H. reflexivity. Qed.

Lemma timeout_eq (s : State) :
  timers (page s) = [(cb_codeScroll, 800%Z)] ->
  timeout s = codeScroll_callback (set_page (set_timers (fun _ => [])) s).
Proof. intros H. unfold timeout. rewrite H. reflexivity. Qed.

Lemma room_run_snoc (E : Env) (es : list Event) (e : Event) (s : State) :
  run E (es ++ [e]) s = step E e (run E es s).
Proof. unfold run. rewrite fold_left_app. reflexivity. Qed.

(** Every line index computed from a scroll position in range is in
    range, and the line is there. *)
Lemma line_index_in_bounds (c i : Z) :
  (0 <= c < codeLines_length)%Z -> (0 <= i < 9)%Z ->
  (0 <= line_index c i < codeLines_length)%Z
  /\ is_Some (codeLines_at (line_index c i)).
Proof.
  intros Hc Hi. change codeLines_length with 9%Z in *.
  assert (Hb : (0 <= line_index c i < 9)%Z).
  { unfold line_index. change codeLines_length with 9%Z.
    apply Z.rem_bound_pos; lia. }
  split; [exact Hb|]. unfold codeLines_at.
  destruct (Z.ltb_spec (line_index c i) 0); [lia|].
  apply lookup_lt_is_Some. change (length codeLines) with 9%nat. lia.
Qed.

Lemma painted_lines (c : Z) :
  (0 <= c < codeLines_length)%Z ->
  Forall is_Some (map (fun i => codeLines_at (line_index c i))
                      [0; 1; 2; 3; 4; 5; 6; 7; 8]%Z).
Proof.
  intros Hc. cbn [map].
  repeat (constructor; [apply line_index_in_bounds; [exact Hc | lia] |]).
  constructor.
Qed.

Lemma invariant_init (E : Env) (w : Window) (now : Q) : invariant (init E w now).
Proof.
  unfold init.
  set (s0 := script E w).
  assert (H0 : rafQueue (page s0) = [] /\ timers (page s0) = []
               /\ codeScroll s0 = 0%Z).
  { subst s0. unfold script.
    destruct (create_drops E mColumns 0) as [ds n]. repeat split. }
  destruct H0 as (Hq & Ht & Hc).
  destruct (animateMatrixRain_fields E s0) as (_ & Hq1 & Ht1 & _ & _ & _ & _ & Hc1 & _).
  set (s1 := animateMatrixRain E s0) in *.
  destruct (animateCodeOutput_fields s1) as (_ & Hq2 & Ht2 & _ & Hc2 & Hs2).
  set (s2 := animateCodeOutput s1) in *.
  set (s3 := set_page controls_update
               (set_page (set_camera (camera_position_set 0 (-1) 10)) s2)).
  assert (H3 : rafQueue (page s3) = rafQueue (page s2)
               /\ timers (page s3) = timers (page s2)
               /\ codeScroll s3 = codeScroll s2 /\ sideText s3 = sideText s2)
    by (repeat split).
  destruct H3 as (Hq3 & Ht3 & Hc3 & Hs3).
  destruct (animate_fields E now s3) as (_ & Hq4 & Ht4 & _ & _ & _ & Hc4 & Hs4 & _).
  cbv zeta in *. unfold invariant.
  rewrite Hq4, Ht4, Hc4, Hs4, Hq3, Ht3, Hc3, Hs3, Hq2, Ht2, Hc2, Hs2, Hq1, Ht1,
    Hc1, Hq, Ht, Hc.
  repeat split; try (change codeLines_length with 9%Z; lia).
  apply painted_lines. change codeLines_length with 9%Z. lia.
Qed.

Lemma invariant_step (E : Env) (e : Event) (s : State) :
  invariant s -> invariant (step E e s).
Proof.
  intros (Hq & Ht & Hc & Hs). pose proof Hc as [Hc0 Hc9].
  destruct e as [now| |W H].
  - cbn [step]. rewrite room_refresh_eq by exact Hq.
    set (s0 := set_page (set_rafQueue (fun _ => [])) s).
    destruct (animateMatrixRain_fields E s0) as (_ & Hq1 & Ht1 & _ & _ & _ & _ & Hc1 & Hs1 & _).
    set (s1 := animateMatrixRain E s0) in *.
    destruct (animate_fields E now s1) as (_ & Hq2 & Ht2 & _ & _ & _ & Hc2 & Hs2 & _).
    cbv zeta in *. unfold invariant.
    rewrite Hq2, Ht2, Hc2, Hs2, Hq1, Ht1, Hc1, Hs1.
    subst s0. cbn [page set_page rafQueue set_rafQueue timers codeScroll sideText].
    repeat split; try reflexivity; assumption.
  - cbn [step]. rewrite timeout_eq by exact Ht.
    unfold codeScroll_callback.
    match goal with |- invariant (animateCodeOutput ?x) => set (s1 := x) end.
    assert (H1 : rafQueue (page s1) = rafQueue (page s)
                 /\ timers (page s1) = []
                 /\ codeScroll s1 = Z.rem (codeScroll s + 1) codeLines_length)
      by (repeat split).
    destruct H1 as (Hq1 & Ht1 & Hc1).
    destruct (animateCodeOutput_fields s1) as (_ & Hq2 & Ht2 & _ & Hc2 & Hs2).
    cbv zeta in *. unfold invariant.
    assert (Hr : (0 <= codeScroll s1 < codeLines_length)%Z).
    { rewrite Hc1. change codeLines_length with 9%Z in *.
      apply Z.rem_bound_pos; lia. }
    rewrite Hq2, Ht2, Hc2, Hs2, Hq1, Ht1.
    repeat split; try reflexivity; try assumption; try lia.
    apply painted_lines, Hr.
  - repeat split; assumption.
Qed.

Lemma invariant_run (E : Env) (w : Window) (now : Q) (es : list Event) :
  invariant (run E es (init E w now)).
Proof.
  induction es as [|e es IH] using rev_ind.
  - apply invariant_init.
  - rewrite room_run_snoc. apply invariant_step, IH.
Qed.

(** The operations of each event, in order. *)
Lemma room_performed_frame (E : Env) (now : Q) (s : State) :
  invariant s ->
  performed E (Frame now) s
  = [CanvasRepaint MatrixCanvas; ControlsUpdate; PoseUpdate; Render].
Proof.
  intros (Hq & _). unfold performed. cbn [step].
  rewrite room_refresh_eq by exact Hq.
  set (s0 := set_page (set_rafQueue (fun _ => [])) s).
  destruct (animateMatrixRain_fields E s0) as (Ht1 & _).
  set (s1 := animateMatrixRain E s0) in *.
  destruct (animate_fields E now s1) as (Ht2 & _).
  cbv zeta in *. rewrite Ht2, Ht1. subst s0.
  cbn [page set_page trace set_rafQueue]. rewrite <- app_assoc.
  apply drop_app_length.
Qed.

Lemma performed_timeout (E : Env) (s : State) :
  invariant s -> performed E Timeout s = [CanvasRepaint SideCanvas].
Proof.
  intros (_ & Ht & _). unfold performed. cbn [step].
  rewrite timeout_eq by exact Ht. unfold codeScroll_callback.
  match goal with |- context [animateCodeOutput ?x] => set (s1 := x) end.
  destruct (animateCodeOutput_fields s1) as (Ht1 & _).
  cbv zeta in Ht1. rewrite Ht1. subst s1.
  cbn [page set_page trace set_timers needsUpdate_set set_loader].
  apply drop_app_length.
Qed.

Lemma performed_resize (E : Env) (W H : Q) (s : State) :
  performed E (Resize W H) s = [].
Proof.
  unfold performed. cbn [step onResize page trace set_camera set_renderer].
  apply drop_all.
Qed.

Lemma room_resize_then_frame (E : Env) (s : State) (W H now : Q) :
  invariant s ->
  let s1 := step E (Resize W H) s in
  aspect (camera (page s1)) = W / H
  /\ width (renderer (page s1)) = W /\ height (renderer (page s1)) = H
  /\ composer s1 = (W, H)
  /\ last (frames (page (step E (Frame now) s1))) = Some (mkFrame (W / H) W H).
Proof.
  intros Hinv s1. repeat split.
  assert (Hq : rafQueue (page s1) = [cb_animateMatrixRain; cb_animate])
    by (destruct Hinv as (Hq & _); exact Hq).
  cbn [step]. rewrite room_refresh_eq by exact Hq.
  set (s0 := set_page (set_rafQueue (fun _ => [])) s1).
  destruct (animateMatrixRain_fields E s0) as (_ & _ & _ & Hf1 & Hc1 & Hr1 & _).
  set (s2 := animateMatrixRain E s0) in *.
  destruct (animate_fields E now s2) as (_ & _ & _ & Hf2 & _).
  cbv zeta in *. rewrite Hf2, last_snoc, Hc1, Hr1. reflexivity.
Qed.

End RoomFacts.

(** ** The camera controller *)
Module ControllerFacts.
Import Three CameraController.

Lemma clamp_in_range (c : Controls) (d : Q) :
  bounds_ordered c -> in_range c (clamp c d).
Proof.
  unfold bounds_ordered, in_range, clamp. intros H. split.
  - apply Q.le_max_l.
  - destruct (maxDistance c) as [hi|]; [|exact I].
    apply Q.max_lub; [exact H | apply Q.le_min_l].
Qed.

Lemma step_in_range (c : Controls) (e : Event) (s : State) :
  bounds_ordered c -> in_range c (distance s) -> in_range c (distance (step c e s)).
Proof.
  intros Hc Hs. destruct e as [[a p|d]|]; cbn; auto using clamp_in_range.
Qed.

Lemma run_in_range (c : Controls) (es : list Event) (s : State) :
  bounds_ordered c -> in_range c (distance s) -> in_range c (distance (run c es s)).
Proof.
  intros Hc. revert s. induction es as [|e es IH]; intros s Hs; [exact Hs|].
  apply IH, step_in_range; assumption.
Qed.

End ControllerFacts.

(** ** The properties of the specification *)

(** C2, as the spec states it, fails in the detailed script: there the
    statement that turns an orbit group is an increment, and applying it
    again within the frame turns Earth's orbit group further. *)
Lemma detailed_orbit_statement_not_idempotent :
  exists p,
    Detailed.planets (Detailed.init window0) !! 2%nat = Some p
    /\ Detailed.orbit_statement p
         (Detailed.orbit_statement p
            (Three.graph (Detailed.page (Detailed.init window0))))
       <> Detailed.orbit_statement p
            (Three.graph (Detailed.page (Detailed.init window0))).
Proof.
  eexists. split; [vm_compute; reflexivity|].
  intros H.
  apply (f_equal (fun g => Three.e_y <$> (Three.rotation
                             <$> Three.objects g !! 11%nat))) in H.
  vm_compute in H. discriminate.
Qed.

(** C2, as amended: in the planet-group script every call of [animate]
    sets each orbit group's rotation to the accumulated angle of its planet
    group, so the two are equal from the first call on, and the assignment
    is idempotent.  In the detailed script there is no separate angle: the
    orbit group's rotation is itself the accumulator, increased by
    [0.005 / orbitalPeriod] on every call. *)
Theorem orbit_rotation_set_or_accumulated :
  (forall (w : Three.Window) (es : list Solar.Event) (pg : Solar.PlanetGroup),
     pg ∈ Solar.planetGroups (Solar.run es (Solar.init w)) ->
     (exists o,
        Three.objects (Three.graph (Solar.page (Solar.run es (Solar.init w))))
          !! Solar.orbitGroup pg = Some o
        /\ Three.e_y (Three.rotation o) = Solar.angle pg)
     /\ forall g, Solar.orbit_statement pg (Solar.orbit_statement pg g)
                  = Solar.orbit_statement pg g)
  /\ (forall (w : Three.Window) (es : list Detailed.Event) (i : nat)
             (p : Detailed.Planet),
        Detailed.planets (Detailed.created w) !! i = Some p ->
        exists o,
          Three.objects (Three.graph (Detailed.page (Detailed.run es (Detailed.init w))))
            !! Detailed.orbitGroup p = Some o
          /\ Three.e_y (Three.rotation o)
             = accumulate (Detailed.ticks es)
                          (0.005 / Detailed.orbitalPeriod (Detailed.data p)) 0).
Proof.
  split.
  - intros w es pg Hpg. split; [apply SolarFacts.orbit_rotation_run, Hpg|].
    intros [objs next]. unfold Solar.orbit_statement, Three.update. cbn.
    f_equal. apply map_eq. intros j. rewrite !lookup_alter.
    destruct (decide (Solar.orbitGroup pg = j)) as [E|E]; [|reflexivity].
    destruct (decide (Solar.orbitGroup pg = Solar.orbitGroup pg)); [|congruence].
    destruct (objs !! Solar.orbitGroup pg); reflexivity.
  - intros w es i p H.
    destruct (DetailedFacts.planet_nodes_run w es i p H)
      as (om & oo & _ & _ & _ & _ & Ho & Hy & _).
    exists oo. split; assumption.
Qed.

Lemma orbit_rotation_set_or_accumulated_witness :
  (exists pg o,
     Solar.planetGroups (Solar.run [Solar.Frame 16] (Solar.init window0)) !! 2%nat
     = Some pg
     /\ Three.objects
          (Three.graph (Solar.page (Solar.run [Solar.Frame 16] (Solar.init window0))))
          !! Solar.orbitGroup pg = Some o
     /\ Three.e_y (Three.rotation o) = Solar.angle pg)
  /\ (exists p o,
        Detailed.planets (Detailed.created window0) !! 2%nat = Some p
        /\ Three.objects
             (Three.graph (Detailed.page
                (Detailed.run [Detailed.Frame 16] (Detailed.init window0))))
             !! Detailed.orbitGroup p = Some o
        /\ Three.e_y (Three.rotation o) == 0.01).
Proof.
  destruct orbit_rotation_set_or_accumulated as [HS HD]. split.
  - assert (H : exists pg,
      Solar.planetGroups (Solar.run [Solar.Frame 16] (Solar.init window0)) !! 2%nat
      = Some pg) by (eexists; vm_compute; reflexivity).
    destruct H as [pg H].
    destruct (HS window0 [Solar.Frame 16] pg) as [(o & Ho & Hy) _].
    { apply list_elem_of_lookup. exists 2%nat. exact H. }
    exists pg, o. auto.
  - assert (H : exists p,
      Detailed.planets (Detailed.created window0) !! 2%nat = Some p
      /\ Detailed.orbitalPeriod (Detailed.data p) = 1)
      by (eexists; split; vm_compute; reflexivity).
    destruct H as (p & H & Hp).
    destruct (HD window0 [Detailed.Frame 16] 2%nat p H) as (o & Ho & Hy).
    exists p, o. repeat split; try assumption.
    rewrite Hy, Hp. reflexivity.
Defined.

(** C3: the code at a failing load.  Mercury's texture (texture 0) fails
    to load once the planet-group script has run.  The texture the mesh's
    material holds is still texture 0, and it has no image; the 1x1 canvas
    texture of colour 0x888888 that [onError] builds is there (texture 11),
    but no node's material refers to it. *)
Theorem failed_load_leaves_empty_texture :
  let s := Solar.step (Solar.ImageError 0) (Solar.init window0) in
  let l := Three.loader (Solar.page s) in
  (exists pg o,
     Solar.planetGroups s !! 0%nat = Some pg
     /\ Solar.texture (Solar.params pg) = 0%nat
     /\ Three.objects (Three.graph (Solar.page s)) !! Solar.mesh pg = Some o
     /\ Three.material_map o = Some 0%nat)
  /\ Three.textures l !! 0%nat = Some (Three.mkTexture None false)
  /\ Three.renderable <$> Three.textures l !! 0%nat = Some false
  /\ Three.textures l !! 11%nat
     = Some (Three.mkTexture (Some (Three.Canvas 1 1 0x888888)) true)
  /\ map_Forall (fun _ o => Three.material_map o <> Some 11%nat)
                (Three.objects (Three.graph (Solar.page s))).
Proof.
  cbv zeta. split; [|split; [|split; [|split]]].
  - do 2 eexists. split; [vm_compute; reflexivity|].
    split; [vm_compute; reflexivity|]. split; vm_compute; reflexivity.
  - vm_compute. reflexivity.
  - vm_compute. reflexivity.
  - vm_compute. reflexivity.
  - apply (bool_decide_unpack _). vm_compute. exact I.
Qed.

Lemma update_elsewhere (id j : nat) (f : Three.Object3D -> Three.Object3D)
    (g : Three.Graph) :
  id <> j -> Three.objects (Three.update id f g) !! j = Three.objects g !! j.
Proof.
  intros H. rewrite ThreeFacts.lookup_update.
  destruct (decide (id = j)); [contradiction | reflexivity].
Qed.

Lemma on_shell_elsewhere (shell : option nat) (j : nat)
    (f : Three.Object3D -> Three.Object3D) (g : Three.Graph) :
  shell <> Some j ->
  Three.objects (Detailed.on_shell shell f g) !! j = Three.objects g !! j.
Proof.
  intros H. destruct shell as [id|]; [|reflexivity].
  apply update_elsewhere. congruence.
Qed.

(** C4: the moon's orbit group accumulates its own angle, 0.02 per call of
    [animate], whatever the planet's periods; it hangs from the planet's
    mesh, which hangs from the planet's orbit group, so the parent's turn
    reaches the moon through the nesting only: no assignment to the
    parent's orbit group or mesh, and none of the planet's own statements of
    the tick, changes the moon's orbit group. *)
Theorem moon_angle_independent (w : Three.Window) (es : list Detailed.Event)
    (i : nat) (p : Detailed.Planet) (m : Detailed.Moon) :
  Detailed.planets (Detailed.created w) !! i = Some p ->
  Detailed.moon (Detailed.data p) = Some m ->
  let objs s := Three.objects (Three.graph (Detailed.page s)) in
  let moonOrbit := Detailed.moon_orbitGroup m in
  (exists oo om,
     objs (Detailed.run es (Detailed.init w)) !! moonOrbit = Some oo
     /\ Three.e_y (Three.rotation oo) = accumulate (Detailed.ticks es) 0.02 0
     /\ Three.e_y (Three.rotation oo)
        == inject_Z (Z.of_nat (Detailed.ticks es)) * 0.02
     /\ Three.parent oo = Some (Detailed.mesh p)
     /\ objs (Detailed.run es (Detailed.init w)) !! Detailed.mesh p = Some om
     /\ Three.parent om = Some (Detailed.orbitGroup p))
  /\ (forall f g,
        Three.objects (Three.update (Detailed.orbitGroup p) f g) !! moonOrbit
        = Three.objects g !! moonOrbit
        /\ Three.objects (Three.update (Detailed.mesh p) f g) !! moonOrbit
           = Three.objects g !! moonOrbit)
  /\ (forall g,
        Three.objects (Detailed.orbit_statement p g) !! moonOrbit
        = Three.objects g !! moonOrbit
        /\ Three.objects (Detailed.spin_statement p g) !! moonOrbit
           = Three.objects g !! moonOrbit
        /\ Three.objects (Detailed.tilt_statement p g) !! moonOrbit
           = Three.objects g !! moonOrbit).
Proof.
  intros H Hm objs moonOrbit.
  destruct (DetailedFacts.moon_nodes_run w es i p m H Hm)
    as (oo & _ & Ho & Hy & Hp & _).
  destruct (DetailedFacts.planet_nodes_run w es i p H)
    as (om & _ & Hom & _ & _ & Hpm & _).
  destruct (DetailedFacts.moon_apart w i p m H Hm) as (Hno & Hnm & Hnc & Hnn).
  split; [|split].
  - exists oo, om. repeat split; try assumption.
    rewrite Hy, accumulate_closed. ring.
  - intros f g. split; apply update_elsewhere; assumption.
  - intros g. unfold Detailed.orbit_statement, Detailed.spin_statement,
      Detailed.tilt_statement.
    split; [|split];
      rewrite ?on_shell_elsewhere, ?update_elsewhere by assumption;
      reflexivity.
Qed.

Lemma moon_angle_independent_witness :
  exists p m oo,
    Detailed.planets (Detailed.created window0) !! 2%nat = Some p
    /\ Detailed.moon (Detailed.data p) = Some m
    /\ Three.objects (Three.graph (Detailed.page
          (Detailed.run [Detailed.Frame 16; Detailed.Frame 33]
                        (Detailed.init window0))))
         !! Detailed.moon_orbitGroup m = Some oo
    /\ Three.e_y (Three.rotation oo) == 0.06.
Proof.
  assert (H : exists p m,
    Detailed.planets (Detailed.created window0) !! 2%nat = Some p
    /\ Detailed.moon (Detailed.data p) = Some m)
    by (do 2 eexists; split; vm_compute; reflexivity).
  destruct H as (p & m & H & Hm).
  destruct (moon_angle_independent window0
              [Detailed.Frame 16; Detailed.Frame 33] 2%nat p m H Hm)
    as ((oo & om & Ho & _ & Hy & _) & _).
  exists p, m, oo. split; [exact H|]. split; [exact Hm|].
  split; [exact Ho|]. rewrite Hy. reflexivity.
Defined.

(** C5: in each of the three scripts the resize listener sets the camera's
    aspect ratio to [W / H] and the renderer's size to [(W, H)] (and, in the
    room, the composer's), and the next frame is drawn with them. *)
Theorem resize_before_next_frame (W H : Q) :
  (forall (w : Three.Window) (es : list Solar.Event) (t : Q),
     let s1 := Solar.step (Solar.Resize W H) (Solar.run es (Solar.init w)) in
     Three.aspect (Three.camera (Solar.page s1)) = W / H
     /\ Three.width (Three.renderer (Solar.page s1)) = W
     /\ Three.height (Three.renderer (Solar.page s1)) = H
     /\ last (Three.frames (Solar.page (Solar.step (Solar.Frame t) s1)))
        = Some (Three.mkFrame (W / H) W H))
  /\ (forall (w : Three.Window) (es : list Detailed.Event) (t : Q),
        let s1 := Detailed.step (Detailed.Resize W H)
                                (Detailed.run es (Detailed.init w)) in
        Three.aspect (Three.camera (Detailed.page s1)) = W / H
        /\ Three.width (Three.renderer (Detailed.page s1)) = W
        /\ Three.height (Three.renderer (Detailed.page s1)) = H
        /\ last (Three.frames (Detailed.page (Detailed.step (Detailed.Frame t) s1)))
           = Some (Three.mkFrame (W / H) W H))
  /\ (forall (E : Room.Env) (w : Three.Window) (now0 : Q) (es : list Room.Event)
             (now : Q),
        let s1 := Room.step E (Room.Resize W H)
                            (Room.run E es (Room.init E w now0)) in
        Three.aspect (Three.camera (Room.page s1)) = W / H
        /\ Three.width (Three.renderer (Room.page s1)) = W
        /\ Three.height (Three.renderer (Room.page s1)) = H
        /\ Room.composer s1 = (W, H)
        /\ last (Three.frames (Room.page (Room.step E (Room.Frame now) s1)))
           = Some (Three.mkFrame (W / H) W H)).
Proof.
  split; [|split].
  - intros w es t. apply SolarFacts.resize_then_frame.
  - intros w es t. apply DetailedFacts.detailed_resize_then_frame.
  - intros E w now0 es now.
    apply RoomFacts.room_resize_then_frame, RoomFacts.invariant_run.
Qed.

(** C6: with the settings of the solar-system scripts ([minDistance] 15,
    [maxDistance] 2000) the controller's distance is within [[15, 2000]]
    after the first [update()] and after every sequence of pointer inputs
    and further updates; the room sets no bounds, and its controller keeps
    the distance at or above 0, the default [minDistance]. *)
Theorem camera_distance_in_bounds (w : Three.Window) (s0 : CameraController.State)
    (es : list CameraController.Event) :
  let solar := Three.controls (Solar.page (Solar.init w)) in
  let detailed := Three.controls (Detailed.page (Detailed.init w)) in
  (Three.minDistance solar = 15 /\ Three.maxDistance solar = Some 2000
   /\ 15 <= CameraController.distance
              (CameraController.run solar es (CameraController.update solar s0))
      <= 2000)
  /\ (Three.minDistance detailed = 15 /\ Three.maxDistance detailed = Some 2000
      /\ 15 <= CameraController.distance
                 (CameraController.run detailed es
                    (CameraController.update detailed s0))
         <= 2000)
  /\ (forall (E : Room.Env) (now : Q),
        let room := Three.controls (Room.page (Room.init E w now)) in
        0 <= CameraController.distance
               (CameraController.run room es (CameraController.update room s0))).
Proof.
  intros solar detailed.
  assert (Hs : solar = Three.mkControls true 0.05 false 15 (Some 2000) 1 1 1)
    by (vm_compute; reflexivity).
  assert (Hd : detailed = Three.mkControls true 0.05 false 15 (Some 2000) 1 1 1)
    by (vm_compute; reflexivity).
  clearbody solar detailed. subst solar detailed.
  set (c := Three.mkControls true 0.05 false 15 (Some 2000) 1 1 1).
  assert (Hc : CameraController.bounds_ordered c) by (cbn; lra).
  pose proof (ControllerFacts.run_in_range c es (CameraController.update c s0) Hc
                (ControllerFacts.clamp_in_range c _ Hc)) as [Hlo Hhi].
  cbn in Hlo, Hhi.
  repeat split; try assumption.
  intros E now room.
  assert (Hr : room = Three.mkControls true 0.05 true 0 None 2 2 2)
    by apply RoomFacts.controls_init.
  clearbody room. subst room.
  set (r := Three.mkControls true 0.05 true 0 None 2 2 2).
  assert (Hrc : CameraController.bounds_ordered r) by exact I.
  pose proof (ControllerFacts.run_in_range r es (CameraController.update r s0) Hrc
                (ControllerFacts.clamp_in_range r _ Hrc)) as [Hlo0 _].
  exact Hlo0.
Qed.

(** C7, as the spec states it, fails: no tick of any script performs the
    controller update, an angle accumulation, a canvas repaint and the
    render in that order.  In the room the repaint of the matrix canvas
    comes first (its callback was requested first) and nothing accumulates
    an angle; in the solar system no canvas is repainted. *)
Lemma tick_not_in_spec_order :
  in_order spec_order
    (Room.performed host0 (Room.Frame 16) (Room.init host0 window0 0)) = false
  /\ in_order spec_order
       (Solar.performed (Solar.Frame 16) (Solar.init window0)) = false
  /\ in_order spec_order
       (Detailed.performed (Detailed.Frame 16) (Detailed.init window0)) = false.
Proof. repeat split; vm_compute; reflexivity. Qed.

(** C7, as amended: a display refresh performs, in this order: in the two
    solar-system scripts the controller update, the angle accumulation and
    the render; in the room the repaint of the matrix canvas, then the
    controller update, the pose update and the render.  The side canvas is
    repainted by its own timer, and a resize performs none of these. *)
Theorem tick_operations :
  (forall (w : Three.Window) (es : list Solar.Event) (t : Q),
     Solar.performed (Solar.Frame t) (Solar.run es (Solar.init w))
     = [Three.ControlsUpdate; Three.AngleAccumulation; Three.Render])
  /\ (forall (w : Three.Window) (es : list Detailed.Event) (t : Q),
        Detailed.performed (Detailed.Frame t) (Detailed.run es (Detailed.init w))
        = [Three.ControlsUpdate; Three.AngleAccumulation; Three.Render])
  /\ (forall (E : Room.Env) (w : Three.Window) (now0 : Q) (es : list Room.Event),
        let s := Room.run E es (Room.init E w now0) in
        (forall now,
           Room.performed E (Room.Frame now) s
           = [Three.CanvasRepaint Three.MatrixCanvas; Three.ControlsUpdate;
              Three.PoseUpdate; Three.Render])
        /\ Room.performed E Room.Timeout s = [Three.CanvasRepaint Three.SideCanvas]
        /\ forall W H, Room.performed E (Room.Resize W H) s = []).
Proof.
  split; [|split].
  - apply SolarFacts.performed_frame.
  - apply DetailedFacts.detailed_performed_frame.
  - intros E w now0 es s.
    pose proof (RoomFacts.invariant_run E w now0 es) as Hinv.
    split; [|split].
    + intros now. apply RoomFacts.room_performed_frame, Hinv.
    + apply RoomFacts.performed_timeout, Hinv.
    + intros W H. apply RoomFacts.performed_resize.
Qed.

(** C8: for every planet group, each call of [animate] makes the
    accumulated angle strictly larger and no other event changes it; the
    planet's [size] and [distance] are positive, its parameters never
    change, and its mesh stays the sphere of radius [size] placed at
    [distance] along x. *)
Theorem angle_increases_radii_fixed (w : Three.Window) (es : list Solar.Event)
    (i : nat) (pg0 : Solar.PlanetGroup) :
  Solar.planetGroups (Solar.created w) !! i = Some pg0 ->
  let s := Solar.run es (Solar.init w) in
  exists pg o,
    Solar.planetGroups s !! i = Some pg
    /\ (forall t, exists pg1,
          Solar.planetGroups (Solar.step (Solar.Frame t) s) !! i = Some pg1
          /\ Solar.angle pg < Solar.angle pg1)
    /\ (forall e, Solar.is_frame e = false ->
          Solar.planetGroups (Solar.step e s) !! i = Some pg)
    /\ Solar.params pg = Solar.params pg0
    /\ Solar.mesh pg = Solar.mesh pg0
    /\ 0 < Solar.size (Solar.params pg)
    /\ 0 < Solar.distance (Solar.params pg)
    /\ Three.objects (Three.graph (Solar.page s)) !! Solar.mesh pg = Some o
    /\ Three.geometry o = Three.SphereGeometry (Solar.size (Solar.params pg0)) 64 64
    /\ Three.v_x (Three.position o) = Solar.distance (Solar.params pg0).
Proof.
  intros H s.
  destruct (SolarFacts.created_shape w i pg0 H) as (Hsize & Hdist & Hspeed & _).
  destruct (SolarFacts.mesh_shape_run w es i pg0 H) as (o & Ho & Hg & Hx).
  destruct (SolarFacts.advance_by_fields (Solar.ticks es) pg0)
    as (Hm & _ & Hp & Ha).
  exists (Solar.advance_by (Solar.ticks es) pg0), o.
  split; [apply SolarFacts.planetGroup_run, H|].
  split; [|split].
  - intros t. exists (Solar.advance_by (S (Solar.ticks es)) pg0). split.
    + subst s. rewrite <- SolarFacts.run_snoc.
      rewrite (SolarFacts.planetGroup_run w (es ++ [Solar.Frame t]) i pg0 H).
      rewrite SolarFacts.ticks_snoc. reflexivity.
    + destruct (SolarFacts.advance_by_fields (S (Solar.ticks es)) pg0)
        as (_ & _ & _ & Ha1).
      rewrite Ha, Ha1. apply accumulate_lt, Hspeed.
  - intros e He. subst s. rewrite <- SolarFacts.run_snoc.
    rewrite (SolarFacts.planetGroup_run w (es ++ [e]) i pg0 H).
    rewrite SolarFacts.ticks_snoc, He. reflexivity.
  - rewrite Hp, Hm. repeat split; assumption.
Qed.

Lemma angle_increases_radii_fixed_witness :
  exists pg pg1,
    Solar.planetGroups (Solar.run [Solar.Frame 16] (Solar.init window0)) !! 4%nat
    = Some pg
    /\ Solar.planetGroups
         (Solar.step (Solar.Frame 33)
            (Solar.run [Solar.Frame 16] (Solar.init window0))) !! 4%nat
       = Some pg1
    /\ Solar.angle pg < Solar.angle pg1
    /\ 0 < Solar.size (Solar.params pg).
Proof.
  assert (H : exists pg0,
    Solar.planetGroups (Solar.created window0) !! 4%nat = Some pg0)
    by (eexists; vm_compute; reflexivity).
  destruct H as [pg0 H].
  destruct (angle_increases_radii_fixed window0 [Solar.Frame 16] 4%nat pg0 H)
    as (pg & o & Hpg & Hstep & _ & _ & _ & Hsize & _).
  destruct (Hstep 33) as (pg1 & Hpg1 & Hlt).
  exists pg, pg1. repeat split; assumption.
Defined.

(** C9: after every event the scroll position of the side monitor is an
    index of [codeLines]; each of the nine line indices computed from it is
    one too, so the line is there; and every text the last repaint drew is
    a line of [codeLines]. *)
Theorem codeScroll_in_bounds (E : Room.Env) (w : Three.Window) (now : Q)
    (es : list Room.Event) (i : Z) :
  (0 <= i < 9)%Z ->
  let s := Room.run E es (Room.init E w now) in
  (0 <= Room.codeScroll s < Room.codeLines_length)%Z
  /\ (0 <= Room.line_index (Room.codeScroll s) i < Room.codeLines_length)%Z
  /\ is_Some (Room.codeLines_at (Room.line_index (Room.codeScroll s) i))
  /\ Forall is_Some (Room.sideText s).
Proof.
  intros Hi s.
  destruct (RoomFacts.invariant_run E w now es) as (_ & _ & Hc & Hs).
  destruct (RoomFacts.line_index_in_bounds (Room.codeScroll s) i Hc Hi)
    as [Hl Hsome].
  split; [exact Hc|]. split; [exact Hl|]. split; [exact Hsome | exact Hs].
Qed.

Lemma codeScroll_in_bounds_witness :
  Room.codeScroll
    (Room.run host0 [Room.Timeout; Room.Frame 16; Room.Timeout]
              (Room.init host0 window0 0)) = 2%Z
  /\ is_Some (Room.codeLines_at (Room.line_index 2 8)).
Proof.
  split; [vm_compute; reflexivity|].
  assert (Hi : (0 <= 8 < 9)%Z) by lia.
  destruct (codeScroll_in_bounds host0 window0 0
              [Room.Timeout; Room.Frame 16; Room.Timeout] 8 Hi)
    as (_ & _ & H & _).
  exact H.
Defined.

(** C10: in the detailed script, from the first call of [animate] on, the
    x-rotation of every planet's mesh is [axialTilt * Math.PI / 180],
    whatever the number of calls; the assignment is idempotent. *)
Theorem axial_tilt_constant (w : Three.Window) (es : list Detailed.Event)
    (i : nat) (p : Detailed.Planet) :
  Detailed.planets (Detailed.created w) !! i = Some p ->
  (exists o,
     Three.objects (Three.graph (Detailed.page (Detailed.run es (Detailed.init w))))
       !! Detailed.mesh p = Some o
     /\ Three.e_x (Three.rotation o)
        = Detailed.axialTilt (Detailed.data p) * Math_PI / 180)
  /\ forall o,
       Three.rotation_x_set (Detailed.tilt (Detailed.data p))
         (Three.rotation_x_set (Detailed.tilt (Detailed.data p)) o)
       = Three.rotation_x_set (Detailed.tilt (Detailed.data p)) o.
Proof.
  intros H. split; [|reflexivity].
  destruct (DetailedFacts.planet_nodes_run w es i p H) as (om & _ & Hm & Hx & _).
  exists om. split; assumption.
Qed.

Lemma axial_tilt_constant_witness :
  exists p o,
    Detailed.planets (Detailed.created window0) !! 1%nat = Some p
    /\ Three.objects
         (Three.graph (Detailed.page
            (Detailed.run [Detailed.Frame 16; Detailed.Frame 33; Detailed.Frame 50]
                          (Detailed.init window0))))
         !! Detailed.mesh p = Some o
    /\ Three.e_x (Three.rotation o) = 177.3 * Math_PI / 180.
Proof.
  assert (H : exists p,
    Detailed.planets (Detailed.created window0) !! 1%nat = Some p
    /\ Detailed.axialTilt (Detailed.data p) = 177.3)
    by (eexists; split; vm_compute; reflexivity).
  destruct H as (p & H & Ht).
  destruct (axial_tilt_constant window0
              [Detailed.Frame 16; Detailed.Frame 33; Detailed.Frame 50]
              1%nat p H) as ((o & Ho & Hx) & _).
  exists p, o. rewrite <- Ht. repeat split; assumption.
Defined.

(** ** Further properties of the planet-group script *)
Module SolarMotion.
Import Three ThreeFacts Solar SolarFacts.











Lemma created_topology (w : Window) (i : nat) (pg0 : PlanetGroup) :
  planetGroups (created w) !! i = Some pg0 ->
  exists oo om,
    objects (graph (page (created w))) !! orbitGroup pg0 = Some oo
    /\ parent oo = Some scene /\ children oo = [mesh pg0]
    /\ position oo = mkVector3 0 0 0
    /\ objects (graph (page (created w))) !! mesh pg0 = Some om
    /\ parent om = Some (orbitGroup pg0)
    /\ position om = mkVector3 (distance (params pg0)) 0 0.
Proof.
  intros H. rewrite created_planetGroups in H. rewrite created_graph.
  do 9 (destruct i as [|i];
        [ vm_compute in H; injection H as <-; do 2 eexists;
          split; [vm_compute; reflexivity|];
          split; [vm_compute; reflexivity|];
          split; [vm_compute; reflexivity|];
          split; [vm_compute; reflexivity|];
          split; [vm_compute; reflexivity|];
          split; vm_compute; reflexivity |]).
  vm_compute in H. discriminate.
Qed.

Lemma rest_of_run (w : Window) (es : list Event) (id : nat) (o0 : Object3D) :
  objects (graph (page (created w))) !! id = Some o0 ->
  exists o, objects (graph (page (run es (init w)))) !! id = Some o
            /\ rest o = rest o0.
Proof.
  intros H0. pose proof (rest_run w es id) as Hr. rewrite H0 in Hr.
  destruct (objects (graph (page (run es (init w)))) !! id) as [o|];
    [|discriminate].
  exists o. split; [reflexivity|]. cbn in Hr. congruence.
Qed.

(** X2: in every state of the planet-group script each orbit group is a
    child of the scene, sits at the origin and holds exactly one child, its
    planet's mesh, which is placed at the planet's distance along x: no
    event moves, adds, removes or re-parents them. *)
Theorem orbit_groups_hold_one_planet (w : Window) (es : list Event)
    (pg : PlanetGroup) :
  pg ∈ planetGroups (run es (init w)) ->
  exists oo om,
    objects (graph (page (run es (init w)))) !! orbitGroup pg = Some oo
    /\ parent oo = Some scene /\ children oo = [mesh pg]
    /\ position oo = mkVector3 0 0 0
    /\ objects (graph (page (run es (init w)))) !! mesh pg = Some om
    /\ parent om = Some (orbitGroup pg)
    /\ position om = mkVector3 (distance (params pg)) 0 0.
Proof.
  intros Hpg. rewrite planetGroups_run in Hpg.
  apply elem_of_map in Hpg as (pg0 & -> & Hpg0).
  apply list_elem_of_lookup in Hpg0 as [i Hi].
  destruct (advance_by_fields (ticks es) pg0) as (-> & -> & -> & _).
  destruct (created_topology w i pg0 Hi)
    as (oo0 & om0 & Hoo & Hp & Hc & Hpos & Hom & Hpm & Hposm).
  destruct (rest_of_run w es _ _ Hoo) as (oo & Ho & Hro).
  destruct (rest_of_run w es _ _ Hom) as (om & Hm & Hrm).
  exists oo, om. injection Hro as _ Hro2 _ _ Hro5 Hro6.
  injection Hrm as _ Hrm2 _ _ Hrm5 _.
  repeat split; congruence.
Qed.

Lemma orbit_groups_hold_one_planet_witness :
  exists pg oo,
    planetGroups (run [Frame 16; ImageError 3; Resize 800 600] (init window0))
      !! 5%nat = Some pg
    /\ objects (graph (page (run [Frame 16; ImageError 3; Resize 800 600]
                                 (init window0)))) !! orbitGroup pg = Some oo
    /\ children oo = [mesh pg].
Proof.
  assert (H : exists pg,
    planetGroups (run [Frame 16; ImageError 3; Resize 800 600] (init window0))
      !! 5%nat = Some pg) by (eexists; vm_compute; reflexivity).
  destruct H as [pg H].
  destruct (orbit_groups_hold_one_planet window0
              [Frame 16; ImageError 3; Resize 800 600] pg)
    as (oo & om & Ho & _ & Hc & _).
  { apply list_elem_of_lookup. exists 5%nat. exact H. }
  exists pg, oo. repeat split; assumption.
Defined.

Lemma created_page_fields (w : Window) :
  frames (page (created w)) = []
  /\ trace (page (created w)) = [ControlsUpdate]
  /\ camera (page (created w))
     = mkCamera 75 (innerWidth w / innerHeight w) 0.1 5000
                (mkVector3 0 200 400) (innerWidth w / innerHeight w)
  /\ renderer (page (created w))
     = mkRenderer (innerWidth w) (innerHeight w) (devicePixelRatio w).
Proof.
  destruct w as [iw ih dpr].
  split; [vm_compute; reflexivity|]. split; [vm_compute; reflexivity|].
  split; vm_compute; reflexivity.
Qed.

Lemma animate_camera (s : State) :
  camera (page (animate s)) = camera (page s)
  /\ renderer (page (animate s)) = renderer (page s).
Proof. rewrite animate_eq. split; reflexivity. Qed.

(** The projection and the render surface agree with the viewport. *)
Lemma viewport_run (w : Window) (es : list Event) :
  let v := solar_viewport w es in
  let p := page (run es (init w)) in
  aspect (camera p) = fst v / snd v
  /\ projection_aspect (camera p) = fst v / snd v
  /\ width (renderer p) = fst v /\ height (renderer p) = snd v.
Proof.
  induction es as [|e es IH] using rev_ind.
  - cbv zeta. rewrite run_nil.
    destruct (animate_camera (created w)) as [-> ->].
    destruct (created_page_fields w) as (_ & _ & -> & ->). repeat split.
  - cbv zeta in *. rewrite run_snoc.
    unfold solar_viewport in *. rewrite fold_left_app. cbn [fold_left].
    destruct e as [t|W H|tx|tx]; [| repeat split | exact IH | exact IH].
    rewrite step_frame. destruct (animate_camera
      (set_page (set_rafQueue (fun _ => [])) (run es (init w)))) as [-> ->].
    exact IH.
Qed.

Lemma frames_run (w : Window) (es : list Event) :
  length (frames (page (run es (init w)))) = ticks es
  /\ length (trace (page (run es (init w)))) = (1 + 3 * ticks es)%nat.
Proof.
  induction es as [|e es [IHf IHt]] using rev_ind.
  - rewrite run_nil, animate_frames, animate_trace.
    destruct (created_page_fields w) as (-> & -> & _). split; reflexivity.
  - rewrite run_snoc, ticks_snoc.
    destruct e as [t|W H|tx|tx]; [| split; assumption ..].
    rewrite step_frame, animate_frames, animate_trace, !length_app.
    cbn [page set_page frames trace set_rafQueue is_frame length].
    rewrite IHf, IHt. split; lia.
Qed.

End SolarMotion.

(** ** Further properties of the detailed script *)
Module DetailedMotion.
Import Three ThreeFacts Detailed DetailedFacts.

Lemma shell_write_rotation_only (shell : option nat) (h : Euler -> Euler) :
  Forall (fun w => rotation_only (snd w)) (shell_write shell (set_rotation h)).
Proof.
  destruct shell; repeat constructor.
Qed.

Lemma writes_rotation_only (p : Planet) :
  Forall (fun w => rotation_only (snd w)) (writes p).
Proof.
  unfold writes. repeat apply Forall_app_2;
    try apply shell_write_rotation_only;
    try (destruct (bool_decide (name (data p) = "Earth")), (moon (data p)));
    repeat constructor.
Qed.

Lemma detailed_frame_writes_rotation_only (s : State) :
  Forall (fun w => rotation_only (snd w)) (frame_writes s).
Proof.
  unfold frame_writes. constructor; [apply set_rotation_only|].
  induction (planets s) as [|p ps IH]; [constructor|].
  cbn [flat_map]. apply Forall_app_2; [apply writes_rotation_only | exact IH].
Qed.

(** No event changes anything of a node but its rotation. *)
Lemma detailed_rest_of_run (w : Window) (es : list Event) (id : nat) (o0 : Object3D) :
  objects (graph (page (created w))) !! id = Some o0 ->
  exists o, objects (graph (page (run es (init w)))) !! id = Some o
            /\ rest o = rest o0.
Proof.
  intros H0. rewrite lookup_run, H0. eexists. split; [reflexivity|].
  induction (ticks es) as [|k IH]; [reflexivity|].
  rewrite iter_S, effect_rotation_only by apply detailed_frame_writes_rotation_only.
  exact IH.
Qed.

(** What one call of [animate] does to the shells of a planet, and how the
    script leaves them. *)
Lemma created_shells (i : nat) (p : Planet) :
  planets (created window0) !! i = Some p ->
  (forall c, cloudsMesh (data p) = Some c ->
     (forall o, effect (frame_writes (created window0)) c o
                = rotation_y_add (0.05 / rotationPeriod (data p) * 0.9)
                    (rotation_x_set (tilt (data p)) o))
     /\ exists oc,
          objects (graph (page (created window0))) !! c = Some oc
          /\ rotation oc = mkEuler 0 0 0 /\ parent oc = Some (mesh p)
          /\ position oc = mkVector3 0 0 0
          /\ geometry oc = SphereGeometry (size (data p) * 1.02) 64 64)
  /\ (forall n, nightLightsMesh (data p) = Some n ->
        (forall o, effect (frame_writes (created window0)) n o
                   = rotation_x_set (tilt (data p)) o)
        /\ exists on,
             objects (graph (page (created window0))) !! n = Some on
             /\ rotation on = mkEuler 0 0 0 /\ parent on = Some (mesh p)
             /\ position on = mkVector3 0 0 0
             /\ geometry on = SphereGeometry (size (data p) * 1.01) 64 64)
  /\ (rotationPeriod (data p) < 0 -> 0.05 / rotationPeriod (data p) < 0)
  /\ (0 < rotationPeriod (data p) -> 0 < 0.05 / rotationPeriod (data p)).
Proof.
  intros H.
  do 8 (destruct i as [|i];
        [ vm_compute in H; injection H as <-;
          split;
          [ intros c Hc; vm_compute in Hc;
            first
              [ discriminate
              | injection Hc as <-;
                split; [intros o; vm_compute; reflexivity|];
                eexists; split; [vm_compute; reflexivity|];
                split; [vm_compute; reflexivity|];
                split; [vm_compute; reflexivity|];
                split; vm_compute; reflexivity ]
          | split;
            [ intros n Hn; vm_compute in Hn;
              first
                [ discriminate
                | injection Hn as <-;
                  split; [intros o; vm_compute; reflexivity|];
                  eexists; split; [vm_compute; reflexivity|];
                  split; [vm_compute; reflexivity|];
                  split; [vm_compute; reflexivity|];
                  split; vm_compute; reflexivity ]
            | split; intros Hs;
              first [vm_compute; reflexivity | vm_compute in Hs; discriminate] ] ]
        |]).
  vm_compute in H. discriminate.
Qed.

Lemma scaled_sign (k : nat) (c : Q) :
  (c < 0 -> inject_Z (Z.of_nat (S k)) * c < 0)
  /\ (0 < c -> 0 < inject_Z (Z.of_nat (S k)) * c).
Proof.
  assert (Hk : 0 < inject_Z (Z.of_nat (S k))).
  { unfold Qlt, inject_Z. cbn [Qnum Qden]. lia. }
  split; intros Hc; nra.
Qed.

(** X3: in the detailed script a planet's mesh spins by
    [0.05 / rotationPeriod] per call of [animate], so backwards for the
    planets whose [rotationPeriod] is negative; its clouds, a child of the
    mesh, carry the same tilt again and turn by 0.9 of the mesh's step on
    top of it; its night lights, a child of the mesh too, are tilted and
    never turned. *)
Theorem spin_follows_rotation_period (w : Window) (es : list Event) (i : nat)
    (p : Planet) :
  planets (created w) !! i = Some p ->
  let objs := objects (graph (page (run es (init w)))) in
  let k := inject_Z (Z.of_nat (ticks es)) in
  (exists om,
     objs !! mesh p = Some om
     /\ e_y (rotation om) == k * (0.05 / rotationPeriod (data p))
     /\ (rotationPeriod (data p) < 0 -> e_y (rotation om) < 0)
     /\ (0 < rotationPeriod (data p) -> 0 < e_y (rotation om)))
  /\ (forall c, cloudsMesh (data p) = Some c ->
        exists oc,
          objs !! c = Some oc /\ parent oc = Some (mesh p)
          /\ e_x (rotation oc) = tilt (data p)
          /\ e_y (rotation oc) == k * (0.05 / rotationPeriod (data p) * 0.9))
  /\ (forall n, nightLightsMesh (data p) = Some n ->
        exists on,
          objs !! n = Some on /\ parent on = Some (mesh p)
          /\ e_x (rotation on) = tilt (data p) /\ e_y (rotation on) = 0).
Proof.
  intros H objs k. subst objs k.
  destruct (planet_nodes_run w es i p H) as (om & _ & Hm & _ & Hy & _).
  rewrite created_planets in H.
  destruct (created_shells i p H) as (Hc & Hn & Hneg & Hpos).
  destruct (ticks_pos es) as [n0 Hk].
  split; [|split].
  - exists om. split; [exact Hm|].
    assert (Hyq : e_y (rotation om)
                  == inject_Z (Z.of_nat (ticks es))
                     * (0.05 / rotationPeriod (data p)))
      by (rewrite Hy, accumulate_closed; ring).
    split; [exact Hyq|]. rewrite Hyq, Hk.
    split; intros Hs; apply scaled_sign; auto.
  - intros c Hcl. destruct (Hc c Hcl) as (Ec & oc0 & Hoc & Rc & Pc & _).
    rewrite lookup_run, created_frame_writes, detailed_created_graph, Hoc.
    cbn [fmap option_fmap option_map]. rewrite (iter_ext _ _ _ _ Ec).
    destruct (iter_tilt_spin (ticks es) (0.05 / rotationPeriod (data p) * 0.9)
                (tilt (data p)) oc0) as (Hcy & _ & Hr).
    destruct (iter_tilt_spin n0 (0.05 / rotationPeriod (data p) * 0.9)
                (tilt (data p)) oc0) as (_ & Hcx & _).
    cbv zeta in Hcy, Hcx, Hr. rewrite <- Hk in Hcx.
    eexists. split; [reflexivity|].
    split; [rewrite <- Pc; injection Hr; auto|].
    split; [exact Hcx|].
    rewrite Hcy, Rc, accumulate_closed. cbn [e_y]. ring.
  - intros n Hnl. destruct (Hn n Hnl) as (En & on0 & Hon & Rn & Pn & _).
    rewrite lookup_run, created_frame_writes, detailed_created_graph, Hon.
    cbn [fmap option_fmap option_map]. rewrite (iter_ext _ _ _ _ En), Hk.
    eexists. split; [reflexivity|].
    assert (Hit : forall j,
      rest (Nat.iter j (rotation_x_set (tilt (data p))) on0) = rest on0
      /\ e_y (rotation (Nat.iter j (rotation_x_set (tilt (data p))) on0))
         = e_y (rotation on0)).
    { induction j as [|j [IH1 IH2]]; [split; reflexivity|].
      rewrite iter_S. split; [rewrite <- IH1 | rewrite <- IH2]; reflexivity. }
    destruct (Hit (S n0)) as [Hr Hy0].
    split; [rewrite <- Pn; injection Hr; auto|].
    split; [rewrite iter_S; reflexivity|].
    rewrite Hy0, Rn. reflexivity.
Qed.

Lemma spin_follows_rotation_period_witness :
  exists p om,
    planets (created window0) !! 1%nat = Some p
    /\ objects (graph (page (run [Frame 16] (init window0)))) !! mesh p = Some om
    /\ e_y (rotation om) < 0.
Proof.
  assert (H : exists p, planets (created window0) !! 1%nat = Some p
                        /\ rotationPeriod (data p) < 0)
    by (eexists; split; vm_compute; reflexivity).
  destruct H as (p & H & Hneg).
  destruct (spin_follows_rotation_period window0 [Frame 16] 1%nat p H)
    as ((om & Hm & _ & Hlt & _) & _).
  exists p, om. split; [exact H|]. split; [exact Hm | exact (Hlt Hneg)].
Defined.

Lemma detailed_created_page_fields (w : Window) :
  frames (page (created w)) = []
  /\ trace (page (created w)) = [ControlsUpdate]
  /\ camera (page (created w))
     = mkCamera 75 (innerWidth w / innerHeight w) 0.1 5000
                (mkVector3 0 200 400) (innerWidth w / innerHeight w)
  /\ renderer (page (created w))
     = mkRenderer (innerWidth w) (innerHeight w) (devicePixelRatio w).
Proof.
  destruct w as [iw ih dpr].
  split; [vm_compute; reflexivity|]. split; [vm_compute; reflexivity|].
  split; vm_compute; reflexivity.
Qed.

Lemma detailed_animate_camera (s : State) :
  camera (page (animate s)) = camera (page s)
  /\ renderer (page (animate s)) = renderer (page s).
Proof. rewrite detailed_animate_eq. split; reflexivity. Qed.

Lemma detailed_viewport_run (w : Window) (es : list Event) :
  let v := detailed_viewport w es in
  let p := page (run es (init w)) in
  aspect (camera p) = fst v / snd v
  /\ projection_aspect (camera p) = fst v / snd v
  /\ width (renderer p) = fst v /\ height (renderer p) = snd v.
Proof.
  induction es as [|e es IH] using rev_ind.
  - cbv zeta. rewrite detailed_run_nil.
    destruct (detailed_animate_camera (created w)) as [-> ->].
    destruct (detailed_created_page_fields w) as (_ & _ & -> & ->).
    repeat split.
  - cbv zeta in *. rewrite detailed_run_snoc.
    unfold detailed_viewport in *. rewrite fold_left_app. cbn [fold_left].
    destruct e as [t|W H|tx|tx]; [| repeat split | exact IH | exact IH].
    rewrite detailed_step_frame. destruct (detailed_animate_camera
      (set_page (set_rafQueue (fun _ => [])) (run es (init w)))) as [-> ->].
    exact IH.
Qed.

Lemma detailed_frames_run (w : Window) (es : list Event) :
  length (frames (page (run es (init w)))) = ticks es
  /\ length (trace (page (run es (init w)))) = (1 + 3 * ticks es)%nat.
Proof.
  induction es as [|e es [IHf IHt]] using rev_ind.
  - rewrite detailed_run_nil, detailed_animate_frames, detailed_animate_trace.
    destruct (detailed_created_page_fields w) as (-> & -> & _).
    split; reflexivity.
  - rewrite detailed_run_snoc, detailed_ticks_snoc.
    destruct e as [t|W H|tx|tx]; [| split; assumption ..].
    rewrite detailed_step_frame, detailed_animate_frames,
      detailed_animate_trace, !length_app.
    cbn [page set_page frames trace set_rafQueue is_frame length].
    rewrite IHf, IHt. split; lia.
Qed.

Lemma detailed_created_topology (i : nat) (p : Planet) :
  planets (created window0) !! i = Some p ->
  (exists oo om,
     objects (graph (page (created window0))) !! orbitGroup p = Some oo
     /\ parent oo = Some scene /\ children oo = [mesh p]
     /\ position oo = mkVector3 0 0 0
     /\ objects (graph (page (created window0))) !! mesh p = Some om
     /\ parent om = Some (orbitGroup p)
     /\ position om = mkVector3 (distance (data p)) 0 0
     /\ geometry om = SphereGeometry (size (data p)) 64 64)
  /\ (is_Some (moon (data p)) <-> name (data p) = "Earth")
  /\ (is_Some (cloudsMesh (data p)) <-> is_Some (cloudsTexture (data p)))
  /\ (is_Some (nightLightsMesh (data p)) <-> is_Some (nightTexture (data p)))
  /\ (forall m, moon (data p) = Some m ->
        exists oo om,
          objects (graph (page (created window0))) !! moon_orbitGroup m = Some oo
          /\ parent oo = Some (mesh p) /\ children oo = [moon_mesh m]
          /\ position oo = mkVector3 0 0 0
          /\ objects (graph (page (created window0))) !! moon_mesh m = Some om
          /\ parent om = Some (moon_orbitGroup m)
          /\ position om = mkVector3 15 0 0
          /\ geometry om = SphereGeometry 1.5 32 32).
Proof.
  intros H.
  do 8 (destruct i as [|i];
        [ vm_compute in H; injection H as <-;
          split;
          [ do 2 eexists; split; [vm_compute; reflexivity|];
            split; [vm_compute; reflexivity|];
            split; [vm_compute; reflexivity|];
            split; [vm_compute; reflexivity|];
            split; [vm_compute; reflexivity|];
            split; [vm_compute; reflexivity|];
            split; vm_compute; reflexivity |];
          split;
          [ split; intros Hx;
            first [ eexists; vm_compute; reflexivity
                  | vm_compute; reflexivity
                  | vm_compute in Hx; first [discriminate | destruct Hx; discriminate] ] |];
          split;
          [ split; intros Hx;
            first [ eexists; vm_compute; reflexivity
                  | vm_compute in Hx; destruct Hx; discriminate ] |];
          split;
          [ split; intros Hx;
            first [ eexists; vm_compute; reflexivity
                  | vm_compute in Hx; destruct Hx; discriminate ] |];
          intros m Hm; vm_compute in Hm;
          first
            [ discriminate
            | injection Hm as <-; do 2 eexists;
              split; [vm_compute; reflexivity|];
              split; [vm_compute; reflexivity|];
              split; [vm_compute; reflexivity|];
              split; [vm_compute; reflexivity|];
              split; [vm_compute; reflexivity|];
              split; [vm_compute; reflexivity|];
              split; vm_compute; reflexivity ]
        |]).
  vm_compute in H. discriminate.
Qed.

(** X4: in every state of the detailed script each planet's orbit group is
    a child of the scene at the origin with the planet's mesh as its only
    child; the mesh is the sphere of the planet's [size] at its [distance];
    a moon exists exactly for the planet named Earth, and its orbit group
    hangs from the planet's mesh, at its centre, with the moon, 15 away, as
    its only child.  No event moves or re-parents any of them. *)
Theorem planets_hang_from_orbit_groups (w : Window) (es : list Event) (i : nat)
    (p : Planet) :
  planets (run es (init w)) !! i = Some p ->
  let objs := objects (graph (page (run es (init w)))) in
  (exists oo om,
     objs !! orbitGroup p = Some oo
     /\ parent oo = Some scene /\ children oo = [mesh p]
     /\ position oo = mkVector3 0 0 0
     /\ objs !! mesh p = Some om
     /\ parent om = Some (orbitGroup p)
     /\ position om = mkVector3 (distance (data p)) 0 0
     /\ geometry om = SphereGeometry (size (data p)) 64 64)
  /\ (is_Some (moon (data p)) <-> name (data p) = "Earth")
  /\ (forall m, moon (data p) = Some m ->
        exists oo om,
          objs !! moon_orbitGroup m = Some oo
          /\ parent oo = Some (mesh p) /\ children oo = [moon_mesh m]
          /\ position oo = mkVector3 0 0 0
          /\ objs !! moon_mesh m = Some om
          /\ parent om = Some (moon_orbitGroup m)
          /\ position om = mkVector3 15 0 0).
Proof.
  intros H objs. subst objs.
  destruct (planets_run w es) as [Hps _]. rewrite Hps, created_planets in H.
  destruct (detailed_created_topology i p H)
    as ((oo0 & om0 & Ho & Hop & Hoc & Hopos & Hm & Hmp & Hmpos & Hmg)
        & Hmoon & _ & _ & Hmn).
  rewrite <- (detailed_created_graph w) in Ho, Hm.
  destruct (detailed_rest_of_run w es _ _ Ho) as (oo & Hoo & Hro).
  destruct (detailed_rest_of_run w es _ _ Hm) as (om & Hom & Hrm).
  split; [|split; [exact Hmoon|]].
  - exists oo, om. injection Hro as _ Hro2 _ _ Hro5 Hro6.
    injection Hrm as _ Hrm2 Hrm3 _ Hrm5 _. repeat split; congruence.
  - intros m Hmd.
    destruct (Hmn m Hmd) as (mo0 & mm0 & Hmo & Hmop & Hmoc & Hmopos & Hmm & Hmmp
                             & Hmmpos & _).
    rewrite <- (detailed_created_graph w) in Hmo, Hmm.
    destruct (detailed_rest_of_run w es _ _ Hmo) as (mo & Hmo1 & Hrmo).
    destruct (detailed_rest_of_run w es _ _ Hmm) as (mm & Hmm1 & Hrmm).
    exists mo, mm. injection Hrmo as _ Hr2 _ _ Hr5 Hr6.
    injection Hrmm as _ Hq2 _ _ Hq5 _. repeat split; congruence.
Qed.

Lemma planets_hang_from_orbit_groups_witness :
  exists p m oo,
    planets (run [Frame 16; Resize 640 480] (init window0)) !! 2%nat = Some p
    /\ moon (data p) = Some m
    /\ objects (graph (page (run [Frame 16; Resize 640 480] (init window0))))
         !! moon_orbitGroup m = Some oo
    /\ parent oo = Some (mesh p).
Proof.
  assert (H : exists p m,
    planets (run [Frame 16; Resize 640 480] (init window0)) !! 2%nat = Some p
    /\ moon (data p) = Some m)
    by (do 2 eexists; split; vm_compute; reflexivity).
  destruct H as (p & m & H & Hm).
  destruct (planets_hang_from_orbit_groups window0 [Frame 16; Resize 640 480]
              2%nat p H) as (_ & _ & Hmoon).
  destruct (Hmoon m Hm) as (oo & om & Ho & Hp & _).
  exists p, m, oo. repeat split; assumption.
Defined.

End DetailedMotion.

(** ** Further properties of the room *)
Module RoomMotion.
Import Three ThreeFacts Room RoomFacts.

Lemma script_fields (E : Env) (w : Window) :
  let s := script E w in
  frames (page s) = [] /\ trace (page s) = []
  /\ camera (page s)
     = mkCamera 75 (innerWidth w / innerHeight w) 0.1 1000 (mkVector3 0 0 0)
                (innerWidth w / innerHeight w)
  /\ renderer (page s)
     = mkRenderer (innerWidth w) (innerHeight w) (devicePixelRatio w)
  /\ composer s = (innerWidth w, innerHeight w)
  /\ codeScroll s = 0%Z
  /\ graph (page s) = room_graph
  /\ mDrops s = fst (create_drops E mColumns 0).
Proof.
  unfold script. destruct (create_drops E mColumns 0) as [ds n].
  destruct w as [iw ih dpr].
  repeat (split; [vm_compute; reflexivity|]). reflexivity.
Qed.

Lemma codeScroll_callback_fields (s : State) :
  let s1 := codeScroll_callback s in
  frames (page s1) = frames (page s)
  /\ camera (page s1) = camera (page s)
  /\ renderer (page s1) = renderer (page s)
  /\ composer s1 = composer s
  /\ graph (page s1) = graph (page s)
  /\ mDrops s1 = mDrops s
  /\ codeScroll s1 = Z.rem (codeScroll s + 1) codeLines_length
  /\ sideText s1
     = map (fun i => codeLines_at (line_index (codeScroll s1) i))
           [0; 1; 2; 3; 4; 5; 6; 7; 8]%Z.
Proof. repeat split. Qed.

Lemma animate_more_fields (E : Env) (now : Q) (s : State) :
  mDrops (animate E now s) = mDrops s
  /\ randoms (animate E now s) = randoms s.
Proof. split; reflexivity. Qed.

Lemma init_fields (E : Env) (w : Window) (now : Q) :
  let s := init E w now in
  aspect (camera (page s)) = innerWidth w / innerHeight w
  /\ projection_aspect (camera (page s)) = innerWidth w / innerHeight w
  /\ width (renderer (page s)) = innerWidth w
  /\ height (renderer (page s)) = innerHeight w
  /\ composer s = (innerWidth w, innerHeight w)
  /\ length (frames (page s)) = 1%nat
  /\ codeScroll s = 0%Z
  /\ sideText s = map (fun i => codeLines_at (line_index 0 i))
                      [0; 1; 2; 3; 4; 5; 6; 7; 8]%Z
  /\ mDrops s = fst (rain_all E (fst (create_drops E mColumns 0))
                              (snd (create_drops E mColumns 0))).
Proof.
  unfold init.
  destruct (script_fields E w) as (Hf & _ & Hc & Hr & Hco & Hcs & _ & Hd).
  set (s0 := script E w) in *. cbv zeta in *.
  assert (Hn : randoms s0 = snd (create_drops E mColumns 0)).
  { subst s0. unfold script. destruct (create_drops E mColumns 0). reflexivity. }
  assert (Hd1 : mDrops (animateMatrixRain E s0)
                = fst (rain_all E (mDrops s0) (randoms s0))).
  { unfold animateMatrixRain.
    destruct (rain_all E (mDrops s0) (randoms s0)). reflexivity. }
  destruct (animateMatrixRain_fields E s0)
    as (_ & _ & _ & Hf1 & Hc1 & Hr1 & _ & Hcs1 & _ & Hco1).
  set (s1 := animateMatrixRain E s0) in *.
  set (s3 := set_page controls_update
               (set_page (set_camera (camera_position_set 0 (-1) 10))
                  (animateCodeOutput s1))).
  assert (H3 : aspect (camera (page s3)) = aspect (camera (page s1))
               /\ projection_aspect (camera (page s3))
                  = projection_aspect (camera (page s1))
               /\ renderer (page s3) = renderer (page s1)
               /\ composer s3 = composer s1
               /\ frames (page s3) = frames (page s1)
               /\ codeScroll s3 = codeScroll s1
               /\ sideText s3
                  = map (fun i => codeLines_at (line_index (codeScroll s1) i))
                        [0; 1; 2; 3; 4; 5; 6; 7; 8]%Z
               /\ mDrops s3 = mDrops s1) by (repeat split).
  destruct H3 as (Ha3 & Hp3 & Hr3 & Hco3 & Hf3 & Hcs3 & Hs3 & Hd3).
  destruct (animate_fields E now s3)
    as (_ & _ & _ & Hf4 & Hc4 & Hr4 & Hcs4 & Hs4 & Hco4).
  destruct (animate_more_fields E now s3) as [Hd4 _].
  cbv zeta in *.
  rewrite Hc4, Hr4, Hco4, Hf4, Hcs4, Hs4, Hd4, Ha3, Hp3, Hr3, Hco3, Hf3, Hcs3,
    Hs3, Hd3, Hd1, Hc1, Hr1, Hco1, Hf1, Hcs1, Hf, Hc, Hr, Hco, Hcs, Hd, Hn.
  repeat split.
Qed.

Lemma room_frames_snoc (es : list Event) (e : Event) :
  room_frames (es ++ [e]) = if room_is_frame e then S (room_frames es)
                            else room_frames es.
Proof.
  unfold room_frames. rewrite filter_app, length_app.
  destruct e; simpl; lia.
Qed.

Lemma room_timeouts_snoc (es : list Event) (e : Event) :
  room_timeouts (es ++ [e]) = if room_is_timeout e then S (room_timeouts es)
                              else room_timeouts es.
Proof.
  unfold room_timeouts. rewrite filter_app, length_app.
  destruct e; simpl; lia.
Qed.

(** The projection, the render surface and the composer agree with the
    viewport, and each display refresh has produced one frame. *)
Lemma room_view_run (E : Env) (w : Window) (now0 : Q) (es : list Event) :
  let v := room_viewport w es in
  let s := run E es (init E w now0) in
  aspect (camera (page s)) = fst v / snd v
  /\ projection_aspect (camera (page s)) = fst v / snd v
  /\ width (renderer (page s)) = fst v /\ height (renderer (page s)) = snd v
  /\ composer s = v
  /\ length (frames (page s)) = S (room_frames es).
Proof.
  induction es as [|e es IH] using rev_ind.
  - cbv zeta. destruct (init_fields E w now0)
      as (Ha & Hp & Hw & Hh & Hc & Hf & _).
    cbv zeta in *. unfold run. cbn [fold_left room_viewport fst snd].
    rewrite Ha, Hp, Hw, Hh, Hc, Hf. repeat split.
  - cbv zeta in *. rewrite room_run_snoc, room_frames_snoc.
    unfold room_viewport in *. rewrite fold_left_app. cbn [fold_left].
    pose proof (invariant_run E w now0 es) as (Hq & Ht & _).
    destruct IH as (Ha & Hp & Hw & Hh & Hc & Hf).
    destruct e as [now| |W H].
    + cbn [step room_is_frame]. rewrite room_refresh_eq by exact Hq.
      set (s0 := set_page (set_rafQueue (fun _ => [])) (run E es (init E w now0))).
      destruct (animateMatrixRain_fields E s0)
        as (_ & _ & _ & Hf1 & Hc1 & Hr1 & _ & _ & _ & Hco1).
      set (s1 := animateMatrixRain E s0) in *.
      destruct (animate_fields E now s1)
        as (_ & _ & _ & Hf2 & Hc2 & Hr2 & _ & _ & Hco2).
      cbv zeta in *.
      rewrite Hc2, Hr2, Hco2, Hf2, Hc1, Hr1, Hco1, Hf1, length_app.
      subst s0. cbn [page set_page camera renderer composer frames set_rafQueue
                     length].
      rewrite Ha, Hp, Hw, Hh, Hc, Hf. repeat split; lia.
    + cbn [step room_is_frame]. rewrite timeout_eq by exact Ht.
      destruct (codeScroll_callback_fields
                  (set_page (set_timers (fun _ => [])) (run E es (init E w now0))))
        as (Hf1 & Hc1 & Hr1 & Hco1 & _).
      cbv zeta in *. rewrite Hf1, Hc1, Hr1, Hco1.
      cbn [page set_page camera renderer composer frames set_timers].
      rewrite Ha, Hp, Hw, Hh, Hc, Hf. repeat split.
    + cbn [step room_is_frame onResize page camera renderer composer frames
           set_camera set_renderer aspect projection_aspect updateProjectionMatrix
           aspect_set setSize width height fst snd].
      rewrite Hf. repeat split.
Qed.

Lemma painted_scrolled (c : Z) :
  (0 <= c < codeLines_length)%Z ->
  map (fun i => codeLines_at (line_index c i)) [0; 1; 2; 3; 4; 5; 6; 7; 8]%Z
  = scrolled c.
Proof.
  change codeLines_length with 9%Z. intros Hc.
  assert (H : (c = 0 \/ c = 1 \/ c = 2 \/ c = 3 \/ c = 4 \/ c = 5 \/ c = 6
               \/ c = 7 \/ c = 8)%Z) by lia.
  repeat (destruct H as [-> | H]; [vm_compute; reflexivity|]).
  subst c. vm_compute. reflexivity.
Qed.

Lemma scroll_run (E : Env) (w : Window) (now0 : Q) (es : list Event) :
  let s := run E es (init E w now0) in
  codeScroll s = (Z.of_nat (room_timeouts es) mod 9)%Z
  /\ sideText s
     = map (fun i => codeLines_at (line_index (codeScroll s) i))
           [0; 1; 2; 3; 4; 5; 6; 7; 8]%Z.
Proof.
  induction es as [|e es IH] using rev_ind.
  - cbv zeta. destruct (init_fields E w now0)
      as (_ & _ & _ & _ & _ & _ & Hcs & Hs & _).
    cbv zeta in *. unfold run. cbn [fold_left]. rewrite Hs, Hcs. split; reflexivity.
  - cbv zeta in *. rewrite room_run_snoc, room_timeouts_snoc.
    pose proof (invariant_run E w now0 es) as (Hq & Ht & Hr & _).
    destruct IH as (Hc & Hs).
    destruct e as [now| |W H].
    + cbn [step room_is_timeout]. rewrite room_refresh_eq by exact Hq.
      set (s0 := set_page (set_rafQueue (fun _ => [])) (run E es (init E w now0))).
      destruct (animateMatrixRain_fields E s0)
        as (_ & _ & _ & _ & _ & _ & _ & Hc1 & Hs1 & _).
      set (s1 := animateMatrixRain E s0) in *.
      destruct (animate_fields E now s1)
        as (_ & _ & _ & _ & _ & _ & Hc2 & Hs2 & _).
      cbv zeta in *. rewrite Hc2, Hs2, Hc1, Hs1. subst s0.
      cbn [page set_page codeScroll sideText]. rewrite <- Hs. split; [exact Hc|].
      reflexivity.
    + cbn [step room_is_timeout]. rewrite timeout_eq by exact Ht.
      destruct (codeScroll_callback_fields
                  (set_page (set_timers (fun _ => [])) (run E es (init E w now0))))
        as (_ & _ & _ & _ & _ & _ & Hc1 & Hs1).
      cbv zeta in *. split; [|exact Hs1]. rewrite Hc1.
      cbn [page set_page codeScroll]. rewrite Hc.
      change codeLines_length with 9%Z.
      rewrite Z.rem_mod_nonneg by
        (pose proof (Z.mod_pos_bound (Z.of_nat (room_timeouts es)) 9); lia).
      rewrite Nat2Z.inj_succ, <- Z.add_1_r. apply Zplus_mod_idemp_l.
    + split; [exact Hc | exact Hs].
Qed.

(** X5: the scroll position of the side monitor is the number of timer
    firings so far modulo 9, whatever frames and resizes come between; the
    canvas always shows the nine lines of [codeLines], rotated to start at
    that position; and exactly one scroll timer is pending. *)
Theorem code_scroll_counts_timeouts (E : Env) (w : Window) (now0 : Q)
    (es : list Event) :
  let s := run E es (init E w now0) in
  codeScroll s = (Z.of_nat (room_timeouts es) mod 9)%Z
  /\ sideText s = scrolled (codeScroll s)
  /\ timers (page s) = [(cb_codeScroll, 800%Z)].
Proof.
  intros s. subst s.
  destruct (scroll_run E w now0 es) as (Hc & Hs).
  pose proof (invariant_run E w now0 es) as (_ & Ht & Hr & _).
  cbv zeta in *. split; [exact Hc|]. split; [|exact Ht].
  rewrite Hs. apply painted_scrolled, Hr.
Qed.











Lemma room_graph_posed : room_graph = posed 0 0 0.8 0.8.
Proof. vm_compute. reflexivity. Qed.

Lemma posed_names (hy hx la ra : Q) :
  getObjectByName "person_head" (posed hy hx la ra) = Some 4%nat
  /\ getObjectByName "left_arm" (posed hy hx la ra) = Some 5%nat
  /\ getObjectByName "right_arm" (posed hy hx la ra) = Some 6%nat.
Proof. repeat split; vm_compute; reflexivity. Qed.

Lemma posed_update (hy hx la ra v : Q) :
  update 4 (rotation_y_set v) (posed hy hx la ra) = posed v hx la ra
  /\ update 4 (rotation_x_set v) (posed hy hx la ra) = posed hy v la ra
  /\ update 5 (rotation_x_set v) (posed hy hx la ra) = posed hy hx v ra
  /\ update 6 (rotation_x_set v) (posed hy hx la ra) = posed hy hx la v.
Proof. repeat split; vm_compute; reflexivity. Qed.

Lemma posed_rotations (hy hx la ra : Q) :
  rotation <$> objects (posed hy hx la ra) !! 4%nat = Some (mkEuler hx hy 0)
  /\ rotation <$> objects (posed hy hx la ra) !! 5%nat = Some (mkEuler la 0 0.5)
  /\ rotation <$> objects (posed hy hx la ra) !! 6%nat
     = Some (mkEuler ra 0 (-0.5)).
Proof. repeat split; vm_compute; reflexivity. Qed.

(** The pose [animate] gives at clock [now]. *)
Lemma animate_posed (E : Env) (now : Q) (s : State) (hy hx la ra : Q) :
  graph (page s) = posed hy hx la ra ->
  graph (page (animate E now s))
  = posed (Math_sin E (now * 0.002 * 0.7) * 0.15)
          (Math_sin E (now * 0.002 * 1.1) * 0.08)
          (Math_sin E (now * 0.002 * 10) * 0.05 + 0.8)
          (Math_cos E (now * 0.002 * 10) * 0.05 + 0.8).
Proof.
  intros Hg. unfold animate.
  set (fy := rotation_y_set _). set (fx := rotation_x_set _).
  set (fl := rotation_x_set _). set (fr := rotation_x_set _).
  set (p3 := set_graph (on_named "person_head" fx) _).
  assert (H3 : graph p3 = posed (Math_sin E (now * 0.002 * 0.7) * 0.15)
                                (Math_sin E (now * 0.002 * 1.1) * 0.08) la ra).
  { subst p3. cbn [graph set_graph log controls_update requestAnimationFrame
                   set_rafQueue].
    rewrite Hg. unfold on_named at 2.
    destruct (posed_names hy hx la ra) as (-> & _).
    subst fy. destruct (posed_update hy hx la ra
                          (Math_sin E (now * 0.002 * 0.7) * 0.15)) as (-> & _).
    unfold on_named.
    destruct (posed_names (Math_sin E (now * 0.002 * 0.7) * 0.15) hx la ra)
      as (-> & _).
    subst fx. destruct (posed_update (Math_sin E (now * 0.002 * 0.7) * 0.15)
                          hx la ra (Math_sin E (now * 0.002 * 1.1) * 0.08))
      as (_ & -> & _).
    reflexivity. }
  clearbody p3.
  destruct (posed_names (Math_sin E (now * 0.002 * 0.7) * 0.15)
              (Math_sin E (now * 0.002 * 1.1) * 0.08) la ra) as (_ & Hl & Hr).
  rewrite H3, Hl, Hr.
  cbn [page set_page graph set_graph render log].
  rewrite H3. subst fl fr.
  destruct (posed_update (Math_sin E (now * 0.002 * 0.7) * 0.15)
              (Math_sin E (now * 0.002 * 1.1) * 0.08) la ra
              (Math_sin E (now * 0.002 * 10) * 0.05 + 0.8)) as (_ & _ & -> & _).
  destruct (posed_update (Math_sin E (now * 0.002 * 0.7) * 0.15)
              (Math_sin E (now * 0.002 * 1.1) * 0.08)
              (Math_sin E (now * 0.002 * 10) * 0.05 + 0.8) ra
              (Math_cos E (now * 0.002 * 10) * 0.05 + 0.8)) as (_ & _ & _ & ->).
  reflexivity.
Qed.

Lemma graph_init (E : Env) (w : Window) (now : Q) :
  graph (page (init E w now))
  = posed (Math_sin E (now * 0.002 * 0.7) * 0.15)
          (Math_sin E (now * 0.002 * 1.1) * 0.08)
          (Math_sin E (now * 0.002 * 10) * 0.05 + 0.8)
          (Math_cos E (now * 0.002 * 10) * 0.05 + 0.8).
Proof.
  unfold init. apply (animate_posed E now _ 0 0 0.8 0.8).
  cbn [page set_page graph controls_update log set_camera animateCodeOutput
       setTimeout set_timers].
  destruct (animateMatrixRain_fields E (script E w))
    as (_ & _ & _ & _ & _ & _ & Hg & _).
  cbv zeta in Hg. rewrite Hg.
  destruct (script_fields E w) as (_ & _ & _ & _ & _ & _ & Hg0 & _).
  cbv zeta in Hg0. rewrite Hg0. apply room_graph_posed.
Qed.

Lemma graph_posed_run (E : Env) (w : Window) (now0 : Q) (es : list Event) :
  exists hy hx la ra,
    graph (page (run E es (init E w now0))) = posed hy hx la ra.
Proof.
  induction es as [|e es (hy & hx & la & ra & IH)] using rev_ind.
  - do 4 eexists. apply graph_init.
  - rewrite room_run_snoc.
    pose proof (invariant_run E w now0 es) as (Hq & Ht & _).
    destruct e as [now| |W H].
    + do 4 eexists. cbn [step]. rewrite room_refresh_eq by exact Hq.
      apply (animate_posed E now _ hy hx la ra).
      destruct (animateMatrixRain_fields E
                  (set_page (set_rafQueue (fun _ => [])) (run E es (init E w now0))))
        as (_ & _ & _ & _ & _ & _ & Hg & _).
      cbv zeta in Hg. rewrite Hg. exact IH.
    + exists hy, hx, la, ra. cbn [step]. rewrite timeout_eq by exact Ht.
      exact IH.
    + exists hy, hx, la, ra. exact IH.
Qed.

(** X9: after every display refresh the head and the arms of the person
    have the pose of the clock of that refresh alone: the head is turned by
    [Math.sin(time * 0.7) * 0.15] about y and [Math.sin(time * 1.1) * 0.08]
    about x, the arms by [Math.sin(time * 10) * 0.05 + 0.8] and
    [Math.cos(time * 10) * 0.05 + 0.8] about x, with [time = now * 0.002];
    the arms keep the z-rotation they were created with.  Timers and
    resizes leave the scene graph as it is. *)
Theorem pose_follows_clock (E : Env) (w : Window) (now0 : Q) (es : list Event)
    (now : Q) :
  let s := run E es (init E w now0) in
  let g := graph (page (step E (Frame now) s)) in
  let time := now * 0.002 in
  (exists head leftArm rightArm,
     getObjectByName "person_head" g = Some head
     /\ getObjectByName "left_arm" g = Some leftArm
     /\ getObjectByName "right_arm" g = Some rightArm
     /\ rotation <$> objects g !! head
        = Some (mkEuler (Math_sin E (time * 1.1) * 0.08)
                        (Math_sin E (time * 0.7) * 0.15) 0)
     /\ rotation <$> objects g !! leftArm
        = Some (mkEuler (Math_sin E (time * 10) * 0.05 + 0.8) 0 0.5)
     /\ rotation <$> objects g !! rightArm
        = Some (mkEuler (Math_cos E (time * 10) * 0.05 + 0.8) 0 (-0.5)))
  /\ graph (page (step E Timeout s)) = graph (page s)
  /\ (forall W H, graph (page (step E (Resize W H) s)) = graph (page s)).
Proof.
  intros s g time. subst s g time.
  pose proof (invariant_run E w now0 es) as (Hq & Ht & _).
  destruct (graph_posed_run E w now0 es) as (hy & hx & la & ra & Hg).
  split; [|split].
  - cbn [step]. rewrite room_refresh_eq by exact Hq.
    rewrite (animate_posed E now _ hy hx la ra).
    + exists 4%nat, 5%nat, 6%nat.
      destruct (posed_names (Math_sin E (now * 0.002 * 0.7) * 0.15)
                  (Math_sin E (now * 0.002 * 1.1) * 0.08)
                  (Math_sin E (now * 0.002 * 10) * 0.05 + 0.8)
                  (Math_cos E (now * 0.002 * 10) * 0.05 + 0.8)) as (-> & -> & ->).
      destruct (posed_rotations (Math_sin E (now * 0.002 * 0.7) * 0.15)
                  (Math_sin E (now * 0.002 * 1.1) * 0.08)
                  (Math_sin E (now * 0.002 * 10) * 0.05 + 0.8)
                  (Math_cos E (now * 0.002 * 10) * 0.05 + 0.8)) as (-> & -> & ->).
      repeat split.
    + destruct (animateMatrixRain_fields E
                  (set_page (set_rafQueue (fun _ => [])) (run E es (init E w now0))))
        as (_ & _ & _ & _ & _ & _ & Hg1 & _).
      cbv zeta in Hg1. rewrite Hg1. exact Hg.
  - cbn [step]. rewrite timeout_eq by exact Ht. reflexivity.
  - intros W H. reflexivity.
Qed.

End RoomMotion.

(** ** The frame loop of the three scripts *)

(** X6: every script keeps exactly one request for each of its frame
    callbacks pending, so each display refresh produces exactly one frame
    and no other event produces any: the number of frames drawn is the
    number of calls of [animate]. *)
Theorem one_frame_per_refresh :
  (forall (w : Three.Window) (es : list Solar.Event),
     length (Three.frames (Solar.page (Solar.run es (Solar.init w))))
     = Solar.ticks es
     /\ Three.rafQueue (Solar.page (Solar.run es (Solar.init w)))
        = [Three.cb_animate])
  /\ (forall (w : Three.Window) (es : list Detailed.Event),
        length (Three.frames (Detailed.page (Detailed.run es (Detailed.init w))))
        = Detailed.ticks es
        /\ Three.rafQueue (Detailed.page (Detailed.run es (Detailed.init w)))
           = [Three.cb_animate])
  /\ (forall (E : Room.Env) (w : Three.Window) (now0 : Q) (es : list Room.Event),
        length (Three.frames (Room.page (Room.run E es (Room.init E w now0))))
        = S (room_frames es)
        /\ Three.rafQueue (Room.page (Room.run E es (Room.init E w now0)))
           = [Three.cb_animateMatrixRain; Three.cb_animate]).
Proof.
  split; [|split].
  - intros w es. split; [apply SolarMotion.frames_run | apply SolarFacts.rafQueue_run].
  - intros w es. split; [apply DetailedMotion.detailed_frames_run
                        | apply DetailedFacts.detailed_rafQueue_run].
  - intros E w now0 es. split.
    + apply (RoomMotion.room_view_run E w now0 es).
    + apply (RoomFacts.invariant_run E w now0 es).
Qed.

(** X7: every frame is drawn with the size of the latest resize, or of the
    window the script started in when there was none: the projection's
    aspect ratio is its width over its height and the render surface has
    its width and height. *)
Theorem frames_follow_viewport :
  (forall (w : Three.Window) (es : list Solar.Event) (t : Q),
     let v := solar_viewport w es in
     last (Three.frames (Solar.page (Solar.step (Solar.Frame t)
                                       (Solar.run es (Solar.init w)))))
     = Some (Three.mkFrame (fst v / snd v) (fst v) (snd v)))
  /\ (forall (w : Three.Window) (es : list Detailed.Event) (t : Q),
        let v := detailed_viewport w es in
        last (Three.frames (Detailed.page (Detailed.step (Detailed.Frame t)
                                             (Detailed.run es (Detailed.init w)))))
        = Some (Three.mkFrame (fst v / snd v) (fst v) (snd v)))
  /\ (forall (E : Room.Env) (w : Three.Window) (now0 : Q) (es : list Room.Event)
             (now : Q),
        let v := room_viewport w es in
        last (Three.frames (Room.page (Room.step E (Room.Frame now)
                                         (Room.run E es (Room.init E w now0)))))
        = Some (Three.mkFrame (fst v / snd v) (fst v) (snd v))
        /\ Room.composer (Room.run E es (Room.init E w now0)) = v).
Proof.
  split; [|split].
  - intros w es t v. subst v.
    destruct (SolarMotion.viewport_run w es) as (_ & Hp & Hw & Hh).
    cbv zeta in *.
    rewrite SolarFacts.step_frame, SolarFacts.animate_frames, last_snoc.
    cbn [Solar.page Solar.set_page Three.camera Three.renderer Three.set_rafQueue].
    rewrite Hp, Hw, Hh. reflexivity.
  - intros w es t v. subst v.
    destruct (DetailedMotion.detailed_viewport_run w es) as (_ & Hp & Hw & Hh).
    cbv zeta in *.
    rewrite DetailedFacts.detailed_step_frame,
      DetailedFacts.detailed_animate_frames, last_snoc.
    cbn [Detailed.page Detailed.set_page Three.camera Three.renderer
         Three.set_rafQueue].
    rewrite Hp, Hw, Hh. reflexivity.
  - intros E w now0 es now v. subst v.
    destruct (RoomMotion.room_view_run E w now0 es) as (_ & Hp & Hw & Hh & Hc & _).
    pose proof (RoomFacts.invariant_run E w now0 es) as (Hq & _).
    cbv zeta in *. split; [|exact Hc].
    cbn [Room.step]. rewrite RoomFacts.room_refresh_eq by exact Hq.
    set (s0 := Room.set_page (Three.set_rafQueue (fun _ => []))
                 (Room.run E es (Room.init E w now0))).
    destruct (RoomFacts.animateMatrixRain_fields E s0)
      as (_ & _ & _ & _ & Hc1 & Hr1 & _).
    set (s1 := Room.animateMatrixRain E s0) in *.
    destruct (RoomFacts.animate_fields E now s1) as (_ & _ & _ & Hf2 & _).
    cbv zeta in *. rewrite Hf2, last_snoc, Hc1, Hr1. subst s0.
    cbn [Room.page Room.set_page Three.camera Three.renderer Three.set_rafQueue].
    rewrite Hp, Hw, Hh. reflexivity.
Qed.

(** ** The walls *)
Module WallFacts.
Import Walls.

Lemma panel_position (width height : Q) (i : Z) :
  position_x (panel width height i) == (2 * inject_Z i - 3) * width / 8
  /\ box_width (panel width height i) == 3 * width / 20.
Proof. unfold panel. cbn. split; field. Qed.

(** X10: [createWall] returns the base wall and five panels; panel [i] is
    centred at [(2 i - 3) * width / 8], so neighbours are [width / 4] apart
    and, being [0.15 * width] wide, leave a gap of [width / 10] between
    them; for a positive [width] the first four panels lie within the base
    wall and the fifth lies wholly beyond its right edge. *)
Theorem wall_panels (width height : Q) (material : Material) :
  0 < width ->
  exists base p0 p1 p2 p3 p4,
    createWall width height material = [base; p0; p1; p2; p3; p4]
    /\ (left_edge base == - width / 2 /\ right_edge base == width / 2)
    /\ (right_edge p0 + width / 10 == left_edge p1
        /\ right_edge p1 + width / 10 == left_edge p2
        /\ right_edge p2 + width / 10 == left_edge p3
        /\ right_edge p3 + width / 10 == left_edge p4)
    /\ (left_edge base < left_edge p0 /\ right_edge p3 < right_edge base)
    /\ right_edge base < left_edge p4.
Proof.
  intros Hw. do 6 eexists. split; [reflexivity|].
  unfold left_edge, right_edge, panel. cbn. unfold inject_Z, Qdiv.
  change (/ 2) with (1 # 2). change (/ 10) with (1 # 10).
  repeat split; lra.
Qed.

Lemma wall_panels_witness :
  exists p4,
    createWall 22 12 wallMaterial !! 5%nat = Some p4
    /\ right_edge (new_BoxMesh 22 12 0.2 wallMaterial) < left_edge p4.
Proof.
  assert (Hw : 0 < 22) by reflexivity.
  destruct (wall_panels 22 12 wallMaterial Hw)
    as (base & p0 & p1 & p2 & p3 & p4 & He & _ & _ & _ & Hout).
  exists p4. rewrite He. split; [reflexivity|].
  injection He as <- _ _ _ _ _. exact Hout.
Defined.

End WallFacts.

(** ** The star fields *)
Module StarFacts.
Import Stars.

Lemma starsVertices_spec (random : nat -> Q) (count : nat) (spread : Q) (n : nat) :
  (forall k, 0 <= random k /\ random k < 1) -> 0 <= spread ->
  length (fst (starsVertices random count spread n)) = (3 * count)%nat
  /\ snd (starsVertices random count spread n) = (n + 3 * count)%nat
  /\ Forall (fun c => - spread / 2 <= c /\ c <= spread / 2)
            (fst (starsVertices random count spread n)).
Proof.
  intros Hr Hs. revert n. induction count as [|count IH]; intros n.
  - cbn. repeat split; [lia | constructor].
  - cbn [starsVertices]. specialize (IH (S (S (S n)))).
    destruct (starsVertices random count spread (S (S (S n)))) as [vs n1].
    cbn [fst snd length] in *. destruct IH as (Hl & Hn & Hb).
    split; [lia|]. split; [lia|].
    destruct (Hr n), (Hr (S n)), (Hr (S (S n))).
    unfold Qdiv in *. change (/ 2) with (1 # 2) in *.
    repeat (constructor; [split; nra|]). exact Hb.
Qed.

Lemma starVertices_spec (random : nat -> Q) (count : nat) (n : nat) :
  (forall k, 0 <= random k /\ random k < 1) ->
  length (fst (starVertices random count n)) = count
  /\ snd (starVertices random count n) = (n + 2 * count)%nat
  /\ Forall (fun v => let '(x, y, z) := v in
                      (-9 <= x /\ x < -1) /\ (-3 <= y /\ y < 5)
                      /\ z == - roomSize_depth / 2 - 2)
            (fst (starVertices random count n)).
Proof.
  intros Hr. revert n. induction count as [|count IH]; intros n.
  - cbn. repeat split; [lia | constructor].
  - cbn [starVertices]. specialize (IH (S (S n))).
    destruct (starVertices random count (S (S n))) as [vs n1].
    cbn [fst snd length] in *. destruct IH as (Hl & Hn & Hb).
    split; [lia|]. split; [lia|].
    destruct (Hr n), (Hr (S n)).
    constructor; [|exact Hb].
    repeat split; first [lra | reflexivity].
Qed.

(** X11: the star loops draw three random numbers per star in the
    solar-system scripts and two in the room, and push one vertex per star;
    with [Math.random()] in [[0, 1)] every coordinate of a solar-system
    star lies within half the spread of the origin, and every star of the
    room lies in the square [[-9, -1) x [-3, 5)] of the plane [z = -13],
    two behind the back wall. *)
Theorem stars_within_bounds (random : nat -> Q) (count : nat) (spread : Q)
    (n : nat) :
  (forall k, 0 <= random k /\ random k < 1) -> 0 <= spread ->
  (length (fst (starsVertices random count spread n)) = (3 * count)%nat
   /\ snd (starsVertices random count spread n) = (n + 3 * count)%nat
   /\ Forall (fun c => - spread / 2 <= c /\ c <= spread / 2)
             (fst (starsVertices random count spread n)))
  /\ (length (fst (starVertices random count n)) = count
      /\ snd (starVertices random count n) = (n + 2 * count)%nat
      /\ Forall (fun v => let '(x, y, z) := v in
                          (-9 <= x /\ x < -1) /\ (-3 <= y /\ y < 5)
                          /\ z == - roomSize_depth / 2 - 2)
                (fst (starVertices random count n))).
Proof.
  intros Hr Hs. split.
  - apply starsVertices_spec; assumption.
  - apply starVertices_spec, Hr.
Qed.

Lemma stars_within_bounds_witness :
  length (fst (starsVertices (fun _ => 0.25) 2 3000 0)) = 6%nat
  /\ Forall (fun c => - 3000 / 2 <= c /\ c <= 3000 / 2)
            (fst (starsVertices (fun _ => 0.25) 2 3000 0)).
Proof.
  assert (Hr : forall k : nat, 0 <= 0.25 /\ 0.25 < 1) by (intros; split; lra).
  assert (Hs : 0 <= 3000) by lra.
  destruct (stars_within_bounds (fun _ => 0.25) 2 3000 0 Hr Hs)
    as ((Hl & _ & Hb) & _).
  split; [exact Hl | exact Hb].
Defined.

End StarFacts.

(** ** Texture loads *)
Module LoaderFacts.
Import Three.

Lemma pending_after_load (url : string) (cb : ErrorCallback) (l : Loader) :
  next_texture_unused l ->
  pending (next_texture l) (snd (TextureLoader_load url cb l))
  = [mkImageLoad url (next_texture l) cb].
Proof.
  intros H. unfold TextureLoader_load, pending. cbn [new_texture snd loads].
  rewrite filter_app. unfold next_texture_unused in H.
  assert (Hnil : filter (fun d => load_texture d = next_texture l) (loads l) = []).
  { induction (loads l) as [|d ds IH]; [reflexivity|].
    apply Forall_cons in H as [Hd Hds]. rewrite filter_cons.
    destruct (decide (load_texture d = next_texture l)); [contradiction|].
    apply IH, Hds. }
  rewrite Hnil, filter_cons. cbn [load_texture].
  destruct (decide (next_texture l = next_texture l)); [reflexivity|congruence].
Qed.

(** X12: [loadTexture] returns at once a texture that did not exist
    before and has no image.  When the image arrives, that texture gets the
    bitmap of the URL.  When the load fails, the texture stays without an
    image: the 1x1 canvas texture of the fallback colour that the error
    callback builds is a further, new texture.  Either way every texture
    that existed before the call is unchanged. *)
Theorem loadTexture_outcomes (url : string) (fallbackColor : Z) (l : Loader) :
  next_texture_unused l ->
  let t := fst (TextureLoader_load url (FallbackCanvas fallbackColor) l) in
  let l1 := snd (TextureLoader_load url (FallbackCanvas fallbackColor) l) in
  t = next_texture l
  /\ textures l1 !! t = Some (mkTexture None false)
  /\ textures (image_loaded t l1) !! t = Some (mkTexture (Some (Bitmap url)) true)
  /\ textures (image_error t l1) !! t = Some (mkTexture None false)
  /\ textures (image_error t l1) !! S t
     = Some (mkTexture (Some (Canvas 1 1 fallbackColor)) true)
  /\ (forall j, j < t ->
        textures l1 !! j = textures l !! j
        /\ textures (image_loaded t l1) !! j = textures l !! j
        /\ textures (image_error t l1) !! j = textures l !! j)%nat.
Proof.
  intros H t l1.
  pose proof (pending_after_load url (FallbackCanvas fallbackColor) l H) as Hp.
  fold l1 in Hp. subst t.
  change (fst (TextureLoader_load url (FallbackCanvas fallbackColor) l))
    with (next_texture l).
  assert (Ht : textures l1 = <[next_texture l := mkTexture None false]> (textures l))
    by reflexivity.
  assert (Hn : next_texture l1 = S (next_texture l)) by reflexivity.
  assert (Hl : textures (image_loaded (next_texture l) l1)
               = alter (fun _ => mkTexture (Some (Bitmap url)) true)
                       (next_texture l) (textures l1)).
  { unfold image_loaded. rewrite Hp. reflexivity. }
  assert (He : textures (image_error (next_texture l) l1)
               = <[S (next_texture l) := mkTexture (Some (Canvas 1 1 fallbackColor)) true]>
                   (textures l1)).
  { unfold image_error. rewrite Hp. cbn [load_onError run_onError].
    unfold new_CanvasTexture, new_texture, settle. cbn [snd textures next_texture].
    rewrite Hn. reflexivity. }
  clearbody l1. rewrite Hl, He, Ht.
  split; [reflexivity|]. split; [apply lookup_insert_eq|].
  split; [rewrite lookup_alter_eq, lookup_insert_eq; reflexivity|].
  split; [rewrite lookup_insert_ne by lia; apply lookup_insert_eq|].
  split; [apply lookup_insert_eq|].
  intros j Hj. rewrite lookup_alter_ne by lia.
  rewrite !lookup_insert_ne by lia. repeat split.
Qed.

Lemma loadTexture_outcomes_witness :
  textures (image_error 0 (snd (TextureLoader_load "a.jpg" (FallbackCanvas 0x888888)
                                   new_TextureLoader))) !! 0%nat
  = Some (mkTexture None false).
Proof.
  assert (H : next_texture_unused new_TextureLoader) by constructor.
  destruct (loadTexture_outcomes "a.jpg" 0x888888 new_TextureLoader H)
    as (_ & _ & _ & He & _).
  exact He.
Defined.

End LoaderFacts.
